(** * The allow-listed forwarding proxy (GET /proxy)

    A shallow embedding of the Express handler registered with
    [app.get('/proxy', ...)], together with the pieces of the JavaScript
    platform it calls: the [URL] constructor, [fetch], [Headers.forEach]
    and the outgoing response object.

    Strings are byte strings (UTF-8); every string the handler compares is
    ASCII. *)

From Stdlib Require Import ZArith Ascii String List Bool Lia.
From stdpp Require Import base option list strings gmap.

Local Open Scope string_scope.
Local Open Scope Z_scope.

(** ** Strings *)

Module Str.

Definition is_upper (c : ascii) : bool :=
  let n := N_of_ascii c in ((65 <=? n) && (n <=? 90))%N.

Definition lower (c : ascii) : ascii :=
  if is_upper c then ascii_of_N (N_of_ascii c + 32) else c.

Definition chars (s : string) : list ascii := list_ascii_of_string s.
Definition of_chars (l : list ascii) : string := string_of_list_ascii l.

(** [String.prototype.toLowerCase], on ASCII letters; other bytes are
    left as they are. *)
Fixpoint toLowerCase (s : string) : string :=
  match s with
  | EmptyString => EmptyString
  | String c s' => String (lower c) (toLowerCase s')
  end.

(** [Array.prototype.includes] on an array of strings (strict equality). *)
Fixpoint includes (l : list string) (x : string) : bool :=
  match l with
  | [] => false
  | y :: l' => if String.eqb y x then true else includes l' x
  end.

End Str.

(** ** JavaScript values, errors and completions *)

Module Js.

(** What [req.query.url] can be once Express has parsed the query string:
    nothing, a string, an array ([?url=a&url=b]) or a nested object
    ([?url[k]=v]). *)
#[local] Unset Elimination Schemes.
Inductive Value :=
| Undefined
| Str (s : string)
| Arr (items : list Value)
| Obj (props : list (string * Value)).
#[local] Set Elimination Schemes.

(** [!v] is [negb (truthy v)]. *)
Definition truthy (v : Value) : bool :=
  match v with
  | Undefined => false
  | Str s => negb (String.eqb s "")
  | Arr _ | Obj _ => true
  end.

Definition typeof (v : Value) : string :=
  match v with
  | Undefined => "undefined"
  | Str _ => "string"
  | Arr _ | Obj _ => "object"
  end.

(** The string a value is, once [typeof] has said it is one. *)
Definition string_of (v : Value) : string :=
  match v with
  | Str s => s
  | _ => ""
  end.

(** A thrown value: an [Error] with its constructor name and message. *)
Record Error := mkError { err_name : string; err_message : string }.

(** The outcome of evaluating an expression, or of awaiting a promise that
    settles. A promise that never settles has no outcome here: the code
    awaiting it never goes on. *)
Inductive Completion (A : Type) :=
| Normal (a : A)
| Throw (e : Error).
Arguments Normal {A} a.
Arguments Throw {A} e.

End Js.

(** ** The URL constructor

    [new URL(input)] with no base, after the URL Standard's basic URL parser:
    the states from scheme start to the point where the path begins, and the
    host parser. The host is settled by then; the path, query and fragment
    states that follow cannot fail, and what they would read is kept
    unparsed in [tail].

    Text runs through the state machine as [list ascii]. Hosts that need
    Unicode processing (a non-ASCII byte or an [xn--] label after
    percent-decoding) go to [unicode_ToASCII], the UTS #46 ToASCII operation,
    which the parser takes as an argument. *)

Module Url.
Local Close Scope string_scope.
Local Open Scope nat_scope.

Definition code (c : ascii) : N := N_of_ascii c.

Definition is_char (c d : ascii) : bool := Ascii.eqb c d.

Definition is_alpha (c : ascii) : bool :=
  (((65 <=? code c) && (code c <=? 90)) || ((97 <=? code c) && (code c <=? 122)))%N.

Definition is_digit (c : ascii) : bool :=
  ((48 <=? code c) && (code c <=? 57))%N.

Definition is_alnum (c : ascii) : bool := is_alpha c || is_digit c.

Definition is_hex_digit (c : ascii) : bool :=
  (is_digit c || ((65 <=? code c) && (code c <=? 70))
   || ((97 <=? code c) && (code c <=? 102)))%N.

(** The value of a digit in any radix up to 16. *)
Definition digit_value (c : ascii) : N :=
  (if is_digit c then code c - 48
   else if (97 <=? code c) then code c - 87
   else code c - 55)%N.

Definition number_in (radix : N) (l : list ascii) : N :=
  fold_left (fun acc c => acc * radix + digit_value c)%N l 0%N.

Definition digit_char (upper : bool) (d : N) : ascii :=
  (if d <? 10 then ascii_of_N (48 + d)
   else if upper then ascii_of_N (55 + d) else ascii_of_N (87 + d))%N.

Fixpoint digits_of (fuel : nat) (radix : N) (upper : bool) (n : N)
         (acc : list ascii) : list ascii :=
  match fuel with
  | O => acc
  | S fuel' =>
      let acc' := digit_char upper (n mod radix)%N :: acc in
      if (n / radix =? 0)%N then acc'
      else digits_of fuel' radix upper (n / radix)%N acc'
  end.

Definition decimal (n : N) : list ascii := digits_of 40 10 false n [].
Definition hex (n : N) : list ascii := digits_of 40 16 false n [].

Definition lower_all (l : list ascii) : list ascii := map Str.lower l.

Fixpoint starts_with (prefix l : list ascii) : bool :=
  match prefix, l with
  | [], _ => true
  | p :: prefix', c :: l' => is_char p c && starts_with prefix' l'
  | _ :: _, [] => false
  end.

Definition eq_chars (a b : list ascii) : bool :=
  Nat.eqb (length a) (length b) && starts_with a b.

Definition is_empty (l : list ascii) : bool :=
  match l with [] => true | _ => false end.

(** Strictly split on a delimiter. *)
Fixpoint split_on (d : ascii) (l : list ascii) : list (list ascii) :=
  match l with
  | [] => [[]]
  | c :: l' =>
      match split_on d l' with
      | part :: parts => if is_char c d then [] :: part :: parts
                         else (c :: part) :: parts
      | [] => [[c]]
      end
  end.

(** *** Percent encoding *)

Definition in_c0_control_set (c : ascii) : bool :=
  ((code c <=? 31) || (126 <? code c))%N.

Definition in_query_set (c : ascii) : bool :=
  in_c0_control_set c
  || existsb (is_char c) [" "%char; "034"%char; "#"%char; "<"%char; ">"%char].

Definition in_path_set (c : ascii) : bool :=
  in_query_set c || existsb (is_char c) ["?"%char; "^"%char; "`"%char; "{"%char; "}"%char].

Definition in_userinfo_set (c : ascii) : bool :=
  in_path_set c
  || existsb (is_char c) ["/"%char; ":"%char; ";"%char; "="%char; "@"%char; "["%char;
                     "\"%char; "]"%char; "^"%char; "|"%char].

Definition percent_encode_byte (c : ascii) : list ascii :=
  ["%"%char; digit_char true (code c / 16)%N; digit_char true (code c mod 16)%N].

Definition percent_encode (in_set : ascii -> bool) (l : list ascii) : list ascii :=
  flat_map (fun c => if in_set c then percent_encode_byte c else [c]) l.

Fixpoint percent_decode (l : list ascii) : list ascii :=
  match l with
  | [] => []
  | c :: l' =>
      match l' with
      | h1 :: h2 :: l'' =>
          if is_char c "%"%char && is_hex_digit h1 && is_hex_digit h2 then
            ascii_of_N (digit_value h1 * 16 + digit_value h2) :: percent_decode l''
          else c :: percent_decode l'
      | _ => c :: percent_decode l'
      end
  end.

(** *** Hosts *)

Inductive Host :=
| Domain (name : list ascii)
| IPv4 (address : N)
| IPv6 (pieces : list N)
| Opaque (text : list ascii)
| Empty.

#[global] Instance Host_eq_dec : EqDecision Host.
Proof. solve_decision. Defined.

Definition forbidden_host_code_point (c : ascii) : bool :=
  existsb (N.eqb (code c))
    [0; 9; 10; 13; 32; 35; 47; 58; 60; 62; 63; 64; 91; 92; 93; 94; 124]%N.

Definition forbidden_domain_code_point (c : ascii) : bool :=
  forbidden_host_code_point c
  || (code c <=? 31)%N || is_char c "%"%char || (code c =? 127)%N.

(** **** IPv4 *)

Definition is_radix_digit (radix : N) (c : ascii) : bool :=
  (if radix =? 16 then is_hex_digit c
   else if radix =? 8 then (48 <=? code c) && (code c <=? 55)
   else is_digit c)%N.

Definition ipv4_number (input : list ascii) : option N :=
  if is_empty input then None
  else
    let '(radix, digits) :=
      match input with
      | z :: x :: more =>
          if is_char z "0"%char && (is_char x "x"%char || is_char x "X"%char)
          then (16%N, more)
          else if is_char z "0"%char then (8%N, x :: more)
          else (10%N, input)
      | _ => (10%N, input)
      end in
    if is_empty digits then Some 0%N
    else if forallb (is_radix_digit radix) digits
         then Some (number_in radix digits)
         else None.

(** The parts of a dotted host, without the empty part a final dot leaves
    (unless it is the only part and [keep_single] is set). *)
Definition dotted_parts (keep_single : bool) (input : list ascii)
  : option (list (list ascii)) :=
  let parts := split_on "."%char input in
  match last parts with
  | Some [] =>
      if Nat.eqb (length parts) 1
      then (if keep_single then Some parts else None)
      else Some (removelast parts)
  | _ => Some parts
  end.

Definition ends_in_a_number (input : list ascii) : bool :=
  match dotted_parts false input with
  | None => false
  | Some parts =>
      match last parts with
      | None => false
      | Some l =>
          (negb (is_empty l) && forallb is_digit l)
          || match ipv4_number l with Some _ => true | None => false end
      end
  end.

Fixpoint all_parsed {A} (l : list (option A)) : option (list A) :=
  match l with
  | [] => Some []
  | None :: _ => None
  | Some a :: l' =>
      match all_parsed l' with
      | Some r => Some (a :: r)
      | None => None
      end
  end.

Definition ipv4_parse (input : list ascii) : option N :=
  match dotted_parts true input with
  | None => None
  | Some parts =>
      if Nat.ltb 4 (length parts) then None
      else
        match all_parsed (map ipv4_number parts) with
        | None => None
        | Some numbers =>
            match last numbers with
            | None => None
            | Some final =>
                let leading := removelast numbers in
                if existsb (fun n => 255 <? n)%N leading then None
                else if (256 ^ (5 - N.of_nat (length numbers)) <=? final)%N then None
                else
                  Some (fold_left
                          (fun '(ipv4, counter) n =>
                             (ipv4 + n * 256 ^ (3 - counter), counter + 1))%N
                          leading (final, 0%N)).1
            end
        end
  end.

Definition ipv4_serialize (address : N) : list ascii :=
  decimal (address / 256 ^ 3 mod 256)%N ++ "."%char
    :: decimal (address / 256 ^ 2 mod 256)%N ++ "."%char
    :: decimal (address / 256 mod 256)%N ++ "."%char
    :: decimal (address mod 256)%N.

(** **** IPv6 *)

Record V6 := mkV6 {
  address : list N;
  pieceIndex : nat;
  compress : option nat
}.

Definition piece (a : list N) (i : nat) : N := default 0%N (a !! i).

(** Up to [budget] hexadecimal digits: their value, how many, what follows. *)
Fixpoint read_hex (budget : nat) (value : N) (len : nat) (l : list ascii)
  : N * nat * list ascii :=
  match budget, l with
  | S budget', c :: l' =>
      if is_hex_digit c
      then read_hex budget' (value * 16 + digit_value c)%N (S len) l'
      else (value, len, l)
  | _, _ => (value, len, l)
  end.

(** One dotted-decimal number of an embedded IPv4 address. *)
Fixpoint read_ipv4_piece (ipv4Piece : option N) (l : list ascii)
  : option (N * list ascii) :=
  match l with
  | c :: l' =>
      if is_digit c then
        let number := digit_value c in
        match ipv4Piece with
        | None => read_ipv4_piece (Some number) l'
        | Some 0%N => None
        | Some p =>
            if (255 <? p * 10 + number)%N then None
            else read_ipv4_piece (Some (p * 10 + number)%N) l'
        end
      else option_map (fun p => (p, l)) ipv4Piece
  | [] => option_map (fun p => (p, l)) ipv4Piece
  end.

Fixpoint ipv6_embedded_ipv4 (fuel : nat) (st : V6) (numbersSeen : nat)
         (l : list ascii) : option V6 :=
  match fuel, l with
  | _, [] => if Nat.eqb numbersSeen 4 then Some st else None
  | O, _ => None
  | S fuel', c :: l' =>
      let after_dot :=
        if Nat.ltb 0 numbersSeen then
          if is_char c "."%char && Nat.ltb numbersSeen 4 then Some l' else None
        else Some l in
      match after_dot with
      | None => None
      | Some l1 =>
          match read_ipv4_piece None l1 with
          | None => None
          | Some (ipv4Piece, l2) =>
              let i := pieceIndex st in
              let a := <[i := (piece (address st) i * 256 + ipv4Piece)%N]> (address st) in
              let seen := S numbersSeen in
              let i' := if Nat.eqb seen 2 || Nat.eqb seen 4 then S i else i in
              ipv6_embedded_ipv4 fuel' (mkV6 a i' (compress st)) seen l2
          end
      end
  end.

Fixpoint ipv6_pieces (fuel : nat) (st : V6) (l : list ascii) : option V6 :=
  match fuel, l with
  | _, [] => Some st
  | O, _ => None
  | S fuel', c :: l' =>
      if Nat.eqb (pieceIndex st) 8 then None
      else if is_char c ":"%char then
        match compress st with
        | Some _ => None
        | None =>
            let i := S (pieceIndex st) in
            ipv6_pieces fuel' (mkV6 (address st) i (Some i)) l'
        end
      else
        let '(value, len, l1) := read_hex 4 0%N 0 l in
        let store rest :=
          ipv6_pieces fuel'
            (mkV6 (<[pieceIndex st := value]> (address st))
                  (S (pieceIndex st)) (compress st)) rest in
        match l1 with
        | d :: l2 =>
            if is_char d "."%char then
              if Nat.eqb len 0 then None
              else if Nat.ltb 6 (pieceIndex st) then None
              else ipv6_embedded_ipv4 (S (length l)) st 0 l
            else if is_char d ":"%char then
              if is_empty l2 then None else store l2
            else None
        | [] => store []
        end
  end.

Fixpoint ipv6_swap (fuel : nat) (a : list N) (pieceIndex swaps comp : nat)
  : list N :=
  match fuel, pieceIndex, swaps with
  | S fuel', S p, S s =>
      let x := piece a pieceIndex in
      let y := piece a (comp + swaps - 1) in
      ipv6_swap fuel' (<[comp + swaps - 1 := x]> (<[pieceIndex := y]> a)) p s comp
  | _, _, _ => a
  end.

Definition ipv6_parse (input : list ascii) : option (list N) :=
  let start := mkV6 (replicate 8 0%N) 0 None in
  let first :=
    match input with
    | c :: l' =>
        if is_char c ":"%char then
          match l' with
          | d :: l'' =>
              if is_char d ":"%char then Some (mkV6 (address start) 1 (Some 1%nat), l'')
              else None
          | [] => None
          end
        else Some (start, input)
    | [] => Some (start, input)
    end in
  match first with
  | None => None
  | Some (st, l) =>
      match ipv6_pieces (S (length l)) st l with
      | None => None
      | Some st' =>
          match compress st' with
          | Some comp =>
              Some (ipv6_swap 8 (address st') 7 (pieceIndex st' - comp) comp)
          | None =>
              if Nat.eqb (pieceIndex st') 8 then Some (address st') else None
          end
      end
  end.

(** Where the first longest run of two or more zero pieces starts. *)
Fixpoint zero_run (a : list N) : nat :=
  match a with
  | 0%N :: a' => S (zero_run a')
  | _ => 0
  end.

Fixpoint longest_zero_run (i : nat) (a : list N) (best : option (nat * nat))
  : option (nat * nat) :=
  match a with
  | [] => best
  | _ :: a' =>
      let n := zero_run a in
      let best' :=
        if Nat.ltb 1 n && Nat.ltb (default 1%nat (snd <$> best)) n
        then Some (i, n) else best in
      longest_zero_run (S i) a' best'
  end.

Fixpoint ipv6_serialize_from (i : nat) (comp : option nat) (ignore0 : bool)
         (a : list N) : list ascii :=
  match a with
  | [] => []
  | p :: a' =>
      if ignore0 && (p =? 0)%N then ipv6_serialize_from (S i) comp true a'
      else if bool_decide (comp = Some i) then
        (if Nat.eqb i 0 then [":"%char; ":"%char] else [":"%char])
          ++ ipv6_serialize_from (S i) comp true a'
      else
        hex p ++ (if Nat.eqb i 7 then [] else [":"%char])
          ++ ipv6_serialize_from (S i) comp false a'
  end.

Definition ipv6_serialize (a : list N) : list ascii :=
  ipv6_serialize_from 0 (fst <$> longest_zero_run 0 a None) false a.

(** **** The host parser *)

Definition opaque_host_parse (input : list ascii) : option Host :=
  if existsb forbidden_host_code_point input then None
  else Some (Opaque (percent_encode in_c0_control_set input)).

Definition is_ascii_only (l : list ascii) : bool :=
  forallb (fun c => code c <? 128)%N l.

Definition has_punycode_label (l : list ascii) : bool :=
  existsb (fun label => starts_with (Str.chars "xn--"%string) label)
          (split_on "."%char (lower_all l)).

Section HostParser.
Variable unicode_ToASCII : list ascii -> option (list ascii).

(** For an ASCII domain with no [xn--] label, ToASCII is ASCII
    lowercasing (the Standard's own remark). *)
Definition domain_to_ASCII (domain : list ascii) : option (list ascii) :=
  let result :=
    if is_ascii_only domain && negb (has_punycode_label domain)
    then Some (lower_all domain)
    else unicode_ToASCII domain in
  match result with
  | None => None
  | Some r =>
      if is_empty r then None
      else if existsb forbidden_domain_code_point r then None
      else Some r
  end.

Definition host_parse (input : list ascii) (isOpaque : bool) : option Host :=
  if starts_with ["["%char] input then
    match last input with
    | Some c =>
        if is_char c "]"%char
        then option_map IPv6 (ipv6_parse (removelast (tail input)))
        else None
    | None => None
    end
  else if isOpaque then opaque_host_parse input
  else
    let domain := percent_decode input in
    match domain_to_ASCII domain with
    | None => None
    | Some asciiDomain =>
        if ends_in_a_number asciiDomain
        then option_map IPv4 (ipv4_parse asciiDomain)
        else Some (Domain asciiDomain)
    end.
End HostParser.

Definition host_serialize (h : Host) : list ascii :=
  match h with
  | Domain name => name
  | IPv4 a => ipv4_serialize a
  | IPv6 a => "["%char :: ipv6_serialize a ++ ["]"%char]
  | Opaque text => text
  | Empty => []
  end.

(** *** The URL record and the state machine *)

Record URL := mkURL {
  scheme : list ascii;
  username : list ascii;
  password : list ascii;
  host : option Host;
  port : option N;
  tail : list ascii
}.

Definition special_schemes : list (string * option N) :=
  [ ("ftp"%string, Some 21%N); ("file"%string, None);
    ("http"%string, Some 80%N); ("https"%string, Some 443%N);
    ("ws"%string, Some 80%N); ("wss"%string, Some 443%N) ].

Definition is_special (sch : list ascii) : bool :=
  existsb (fun e => eq_chars sch (Str.chars e.1)) special_schemes.

Definition default_port (sch : list ascii) : option N :=
  match List.find (fun e => eq_chars sch (Str.chars e.1)) special_schemes with
  | Some e => e.2
  | None => None
  end.

Definition is_c0_control_or_space (c : ascii) : bool := (code c <=? 32)%N.

Definition is_tab_or_newline (c : ascii) : bool :=
  existsb (N.eqb (code c)) [9; 10; 13]%N.

Fixpoint strip_leading (l : list ascii) : list ascii :=
  match l with
  | c :: l' => if is_c0_control_or_space c then strip_leading l' else l
  | [] => []
  end.

Definition preprocess (input : list ascii) : list ascii :=
  List.filter (fun c => negb (is_tab_or_newline c))
              (rev (strip_leading (rev (strip_leading input)))).

(** What the clean-up leaves of the input that follows a character it
    keeps: the trailing blanks go, and so do the tabs and newlines. *)
Definition cleaned_tail (p : list ascii) : list ascii :=
  List.filter (fun c => negb (is_tab_or_newline c))
              (rev (strip_leading (rev p))).

(** The end of an authority: [/], [?], [#], and [\] in a special URL
    (end of input is the other way out). *)
Definition ends_authority (special : bool) (c : ascii) : bool :=
  is_char c "/"%char || is_char c "?"%char || is_char c "#"%char
  || (special && is_char c "\"%char).

(** Scheme state: the lowercased scheme and what follows its colon. *)
Fixpoint scheme_state (buffer l : list ascii) : option (list ascii * list ascii) :=
  match l with
  | c :: l' =>
      if is_alnum c || is_char c "+"%char || is_char c "-"%char || is_char c "."%char
      then scheme_state (buffer ++ [Str.lower c]) l'
      else if is_char c ":"%char then Some (buffer, l')
      else None
  | [] => None
  end.

(** Scheme start state; without a base URL the no scheme state fails. *)
Definition scheme_start_state (l : list ascii) : option (list ascii * list ascii) :=
  match l with
  | c :: l' => if is_alpha c then scheme_state [Str.lower c] l' else None
  | [] => None
  end.

(** The credentials in an authority buffer that an [@] closes. *)
Fixpoint read_credentials (passwordTokenSeen : bool) (user pass buffer : list ascii)
  : bool * list ascii * list ascii :=
  match buffer with
  | [] => (passwordTokenSeen, user, pass)
  | c :: buffer' =>
      if is_char c ":"%char && negb passwordTokenSeen
      then read_credentials true user pass buffer'
      else
        let encoded := percent_encode in_userinfo_set [c] in
        if passwordTokenSeen
        then read_credentials passwordTokenSeen user (pass ++ encoded) buffer'
        else read_credentials passwordTokenSeen (user ++ encoded) pass buffer'
  end.

(** Authority state: the credentials, and the text the host state reads
    (the buffer after the last [@], then the rest of the input). *)
Fixpoint authority_state (special atSignSeen passwordTokenSeen : bool)
         (user pass buffer l : list ascii)
  : option (list ascii * list ascii * list ascii) :=
  let done :=
    if atSignSeen && is_empty buffer then None
    else Some (user, pass, buffer ++ l) in
  match l with
  | c :: l' =>
      if is_char c "@"%char then
        let buffer := if atSignSeen then Str.chars "%40"%string ++ buffer else buffer in
        let '(seen, user, pass) :=
          read_credentials passwordTokenSeen user pass buffer in
        authority_state special true seen user pass [] l'
      else if ends_authority special c then done
      else authority_state special atSignSeen passwordTokenSeen
                           user pass (buffer ++ [c]) l'
  | [] => done
  end.

(** Host state, up to the host parser: the buffer, whether a colon (a port)
    follows it, and the input from there. *)
Fixpoint host_state (special insideBrackets : bool) (buffer l : list ascii)
  : list ascii * bool * list ascii :=
  match l with
  | c :: l' =>
      if is_char c ":"%char && negb insideBrackets then (buffer, true, l')
      else if ends_authority special c then (buffer, false, l)
      else
        let inside :=
          if is_char c "["%char then true
          else if is_char c "]"%char then false
          else insideBrackets in
        host_state special inside (buffer ++ [c]) l'
  | [] => (buffer, false, [])
  end.

(** File host state: the buffer and the input from its end. *)
Fixpoint file_host_state (buffer l : list ascii) : list ascii * list ascii :=
  match l with
  | c :: l' =>
      if ends_authority true c then (buffer, l)
      else file_host_state (buffer ++ [c]) l'
  | [] => (buffer, [])
  end.

Definition is_windows_drive_letter (l : list ascii) : bool :=
  match l with
  | [a; b] => is_alpha a && (is_char b ":"%char || is_char b "|"%char)
  | _ => false
  end.

(** Where the states before the host parser leave off: at a URL that has no
    authority, or at a host buffer (with its credentials, whether a colon
    follows, and the input from there). *)
Inductive Scan :=
| NoAuthority (u : URL)
| AtHost (sch user pass buffer : list ascii) (colon : bool) (l : list ascii)
| AtFileHost (sch buffer l : list ascii).

Definition authority (sch l : list ascii) : option Scan :=
  let special := is_special sch in
  match authority_state special false false [] [] [] l with
  | None => None
  | Some (user, pass, l') =>
      let '(buffer, colon, rest) := host_state special false [] l' in
      Some (AtHost sch user pass buffer colon rest)
  end.

(** Special authority ignore slashes state. *)
Fixpoint special_authority_ignore_slashes_state (sch l : list ascii)
  : option Scan :=
  match l with
  | c :: l' =>
      if is_char c "/"%char || is_char c "\"%char
      then special_authority_ignore_slashes_state sch l'
      else authority sch l
  | [] => authority sch []
  end.

Definition special_authority_slashes_state (sch l : list ascii) : option Scan :=
  match l with
  | c :: d :: l' =>
      if is_char c "/"%char && is_char d "/"%char
      then special_authority_ignore_slashes_state sch l'
      else special_authority_ignore_slashes_state sch l
  | _ => special_authority_ignore_slashes_state sch l
  end.

Definition path_or_authority_state (sch l : list ascii) : option Scan :=
  match l with
  | c :: l' =>
      if is_char c "/"%char then authority sch l'
      else Some (NoAuthority (mkURL sch [] [] None None l))
  | [] => Some (NoAuthority (mkURL sch [] [] None None l))
  end.

Definition is_slash (c : ascii) : bool :=
  is_char c "/"%char || is_char c "\"%char.

(** File slash state, with no base URL. *)
Definition file_slash_state (sch l : list ascii) : option Scan :=
  match l with
  | c :: l' =>
      if is_slash c
      then let '(buffer, rest) := file_host_state [] l' in
           Some (AtFileHost sch buffer rest)
      else Some (NoAuthority (mkURL sch [] [] (Some Empty) None l))
  | [] => Some (NoAuthority (mkURL sch [] [] (Some Empty) None l))
  end.

(** File state, with no base URL. *)
Definition file_state (sch l : list ascii) : option Scan :=
  match l with
  | c :: l' =>
      if is_slash c then file_slash_state sch l'
      else Some (NoAuthority (mkURL sch [] [] (Some Empty) None l))
  | [] => Some (NoAuthority (mkURL sch [] [] (Some Empty) None l))
  end.

(** From the input to the host parser's door. *)
Definition scan_to_host (input : list ascii) : option Scan :=
  match scheme_start_state (preprocess input) with
  | None => None
  | Some (sch, l) =>
      if eq_chars sch (Str.chars "file"%string) then file_state sch l
      else if is_special sch then special_authority_slashes_state sch l
      else
        match l with
        | c :: l' =>
            if is_char c "/"%char then path_or_authority_state sch l'
            else Some (NoAuthority (mkURL sch [] [] None None l))
        | [] => Some (NoAuthority (mkURL sch [] [] None None l))
        end
  end.

(** The text handed to the host parser, when there is one. *)
Definition scanned_host (sc : option Scan) : list ascii :=
  match sc with
  | Some (AtHost _ _ _ buffer _ _) | Some (AtFileHost _ buffer _) => buffer
  | _ => []
  end.

(** The host as the input spells it. *)
Definition host_text (input : string) : string :=
  Str.of_chars (scanned_host (scan_to_host (Str.chars input))).

Section Parser.
Variable unicode_ToASCII : list ascii -> option (list ascii).

Fixpoint port_state (sch user pass : list ascii) (h : Host)
         (buffer l : list ascii) : option URL :=
  let done rest :=
    if is_empty buffer then Some (mkURL sch user pass (Some h) None rest)
    else
      let port := number_in 10 buffer in
      if (65535 <? port)%N then None
      else
        let port := if bool_decide (default_port sch = Some port)
                    then None else Some port in
        Some (mkURL sch user pass (Some h) port rest) in
  match l with
  | c :: l' =>
      if is_digit c then port_state sch user pass h (buffer ++ [c]) l'
      else if ends_authority (is_special sch) c then done l
      else None
  | [] => done []
  end.

(** What the host state does with its buffer. *)
Definition host_state_end (sch user pass buffer : list ascii)
           (colon : bool) (l : list ascii) : option URL :=
  let special := is_special sch in
  if colon then
    if is_empty buffer then None
    else
      match host_parse unicode_ToASCII buffer (negb special) with
      | None => None
      | Some h => port_state sch user pass h [] l
      end
  else if special && is_empty buffer then None
  else
    match host_parse unicode_ToASCII buffer (negb special) with
    | None => None
    | Some h => Some (mkURL sch user pass (Some h) None l)
    end.

(** What the file host state does with its buffer. *)
Definition file_host_state_end (sch buffer l : list ascii) : option URL :=
  if is_windows_drive_letter buffer
  then Some (mkURL sch [] [] (Some Empty) None (buffer ++ l))
  else if is_empty buffer
  then Some (mkURL sch [] [] (Some Empty) None l)
  else
    match host_parse unicode_ToASCII buffer false with
    | None => None
    | Some h =>
        let h := if bool_decide (h = Domain (Str.chars "localhost"%string))
                 then Empty else h in
        Some (mkURL sch [] [] (Some h) None l)
    end.

(** The basic URL parser, as far as the start of the path. *)
Definition basic_parse (input : list ascii) : option URL :=
  match scan_to_host input with
  | None => None
  | Some (NoAuthority u) => Some u
  | Some (AtHost sch user pass buffer colon l) =>
      host_state_end sch user pass buffer colon l
  | Some (AtFileHost sch buffer l) => file_host_state_end sch buffer l
  end.

(** [new URL(input)] *)
Definition URL_new (input : string) : Js.Completion URL :=
  match basic_parse (Str.chars input) with
  | Some u => Js.Normal u
  | None => Js.Throw (Js.mkError "TypeError"%string "Invalid URL"%string)
  end.
End Parser.

(** The [hostname] getter: the serialized host, empty when there is none. *)
Definition hostname (u : URL) : string :=
  match host u with
  | Some h => Str.of_chars (host_serialize h)
  | None => ""%string
  end.

(** The characters host names are written with: letters, digits, hyphen
    and dot. *)
Definition is_name_char (c : ascii) : bool :=
  is_alnum c || is_char c "-"%char || is_char c "."%char.

End Url.

(** ** The outgoing response and the calls a handler makes *)

Module Http.

Inductive Body :=
| Text (s : string)
| Buffer (bytes : list Byte.byte).

(** [res], as far as the handler drives it: the code last given to
    [res.status], the table written through [res.setHeader], and the body
    given to [res.send]. As in Node's [OutgoingMessage], the header table is
    keyed by the lowercased name and keeps the name as it was given next to
    the value. *)
Record Response := mkResponse {
  statusCode : Z;
  headers : gmap string (string * string);
  sent : option Body
}.

Inductive RedirectMode := follow | error | manual.

(** What [fetch] resolves to. [headers] lists the pairs [Headers.forEach]
    visits, in its order: names lowercased and sorted, the values of a
    repeated name joined, except [set-cookie], which is visited once per
    value. [url] and [redirected] describe the response that ended the
    redirect chain. *)
Record Upstream := mkUpstream {
  up_status : Z;
  up_headers : list (string * string);
  up_arrayBuffer : Js.Completion (list Byte.byte);
  up_url : string;
  up_redirected : bool
}.

(** Calls into the platform, in program order. *)
Inductive Call :=
| NewURL (input : string)
| Fetch (input : string) (redirect : RedirectMode)
| ConsoleError (e : Js.Error).

Record World := mkWorld { res : Response; calls : list Call }.

(** Handler code: it updates the response, records its calls and either
    completes or throws. What was done before a throw stays done. *)
Definition Handler (A : Type) : Type := World -> Js.Completion A * World.

Definition ret {A} (a : A) : Handler A := fun w => (Js.Normal a, w).

Definition bind {A B} (m : Handler A) (k : A -> Handler B) : Handler B :=
  fun w =>
    match m w with
    | (Js.Normal a, w') => k a w'
    | (Js.Throw e, w') => (Js.Throw e, w')
    end.

Definition throw {A} (e : Js.Error) : Handler A := fun w => (Js.Throw e, w).

(** [try { body } catch (err) { handler }] *)
Definition try_catch {A} (body : Handler A) (handler : Js.Error -> Handler A)
  : Handler A :=
  fun w =>
    match body w with
    | (Js.Normal a, w') => (Js.Normal a, w')
    | (Js.Throw e, w') => handler e w'
    end.

(** Evaluate a completion inside a handler. *)
Definition lift {A} (c : Js.Completion A) : Handler A :=
  fun w => (c, w).

Definition call (c : Call) : Handler unit :=
  fun w => (Js.Normal tt, mkWorld (res w) (calls w ++ [c])).

Definition modify_res (f : Response -> Response) : Handler unit :=
  fun w => (Js.Normal tt, mkWorld (f (res w)) (calls w)).

(** [res.status(code)] *)
Definition status (code : Z) : Handler unit :=
  modify_res (fun r => mkResponse code (headers r) (sent r)).

(** [res.send(body)], as the call the handler makes: the body it is given.
    What Express then does on its own account before the bytes leave is not
    the handler's doing and is not followed in this record: it writes
    Content-Length, Content-Type and ETag, it answers 304 to a conditional
    request that is still fresh, and on 204 and 304 it drops Content-Type,
    Content-Length and Transfer-Encoding with the body. [send_managed] names
    the headers concerned; the others leave as the handler wrote them. *)
Definition send (b : Body) : Handler unit :=
  modify_res (fun r => mkResponse (statusCode r) (headers r) (Some b)).

(** The headers [res.send] writes or removes itself, by lowercased name. *)
Definition send_managed : list string :=
  [ "content-type"; "content-length"; "etag"; "transfer-encoding" ].

(** Node's [validateHeaderName]: a non-empty HTTP token. *)
Definition is_token_char (c : ascii) : bool :=
  let n := N_of_ascii c in
  (((48 <=? n) && (n <=? 57)) || ((65 <=? n) && (n <=? 90))
   || ((97 <=? n) && (n <=? 122))
   || existsb (N.eqb n) [33; 35; 36; 37; 38; 39; 42; 43; 45; 46; 94; 95; 96; 124; 126])%N.

Definition valid_header_name (name : string) : bool :=
  negb (String.eqb name "") && forallb is_token_char (Str.chars name).

(** Node's [validateHeaderValue]: tab, printable ASCII and bytes from 0x80. *)
Definition is_value_char (c : ascii) : bool :=
  let n := N_of_ascii c in
  ((n =? 9) || ((32 <=? n) && (n <=? 126)) || (128 <=? n))%N.

Definition valid_header_value (value : string) : bool :=
  forallb is_value_char (Str.chars value).

(** [res.setHeader(name, value)]: throws on a name or value Node refuses,
    otherwise replaces whatever was stored under the lowercased name. *)
Definition setHeader (name value : string) : Handler unit :=
  if negb (valid_header_name name) then
    throw (Js.mkError "TypeError" "ERR_INVALID_HTTP_TOKEN")
  else if negb (valid_header_value value) then
    throw (Js.mkError "TypeError" "ERR_INVALID_CHAR")
  else
    modify_res (fun r =>
      mkResponse (statusCode r)
                 (<[Str.toLowerCase name := (name, value)]> (headers r))
                 (sent r)).

(** [res.getHeader(name)] *)
Definition getHeader (r : Response) (name : string) : option string :=
  snd <$> headers r !! Str.toLowerCase name.

(** [headers.forEach((value, key) => ...)] over the visited pairs. *)
Fixpoint forEach (hs : list (string * string))
         (callbackfn : string -> string -> Handler unit) : Handler unit :=
  match hs with
  | [] => ret tt
  | (key, value) :: hs' =>
      bind (callbackfn value key) (fun _ => forEach hs' callbackfn)
  end.

End Http.

(** ** What fetch does before any request

    After the Fetch Standard: the [Request] constructor parses the input and
    throws when the URL includes credentials; a scheme that fetch does not
    serve is a network error, which rejects the promise. Only then is the
    request made. *)

Module Fetch.
Import Http.

(** A URL includes credentials when its username or its password is not the
    empty string. *)
Definition includes_credentials (u : Url.URL) : bool :=
  negb (Url.is_empty (Url.username u)) || negb (Url.is_empty (Url.password u)).

(** The schemes fetch serves: http and https over the network, about, blob
    and data without it. *)
Definition served_schemes : list string :=
  [ "about"; "blob"; "data"; "http"; "https" ].

Definition serves (u : Url.URL) : bool :=
  existsb (fun sch => Url.eq_chars (Url.scheme u) (Str.chars sch))
          served_schemes.

Section Fetch.
Variable unicode_ToASCII : list ascii -> option (list ascii).
(** What making the request gives. *)
Variable serve : string -> RedirectMode -> Js.Completion Upstream.

(** [fetch(input, { redirect })] *)
Definition fetch (input : string) (redirect : RedirectMode)
  : Js.Completion Upstream :=
  match Url.URL_new unicode_ToASCII input with
  | Js.Throw e => Js.Throw e
  | Js.Normal u =>
      if includes_credentials u then
        Js.Throw (Js.mkError "TypeError"
                    ("Request cannot be constructed from a URL that includes credentials: "
                     +:+ input))
      else if negb (serves u) then
        Js.Throw (Js.mkError "TypeError" "fetch failed")
      else serve input redirect
  end.
End Fetch.

End Fetch.

#[global] Instance Handler_ret : MRet Http.Handler := @Http.ret.
#[global] Instance Handler_bind : MBind Http.Handler :=
  fun A B k m => Http.bind m k.

(** ** The handler *)

Module Proxy.
Import Http.

(** Allowlist of demo lab domains *)
Definition ALLOWLIST : list string :=
  [ "testphp.vulnweb.com";
    "juice-shop.herokuapp.com";
    "juice-shop.github.io";
    "badssl.com" ].

Record Request := mkRequest { query : gmap string Js.Value }.

(** [req.query.url] *)
Definition query_url (req : Request) : Js.Value :=
  default Js.Undefined (query req !! "url").

Section Handler.
(** The platform: URL objects with their [hostname], the [URL]
    constructor and [fetch]. *)
Context {URLobj : Type}.
Variable hostname : URLobj -> string.
Variable URL_new : string -> Js.Completion URLobj.
Variable fetch : string -> RedirectMode -> Js.Completion Upstream.

(** The callback given to [upstream.headers.forEach]. *)
Definition copy_header (value key : string) : Handler unit :=
  let lower := Str.toLowerCase key in
  if Str.includes ["x-frame-options"; "content-security-policy"] lower
  then mret tt
  else setHeader key value.

(** The [try] block. *)
Definition proxy_try (req : Request) : Handler unit :=
  let target := query_url req in
  if negb (Js.truthy target)
     || negb (String.eqb (Js.typeof target) "string") then
    status 400;; send (Text "Missing url param")
  else
    let target := Js.string_of target in
    call (NewURL target);;
    urlObj ← lift (URL_new target);
    if negb (Str.includes ALLOWLIST (hostname urlObj)) then
      status 403;; send (Text "Domain not allowed")
    else
      call (Fetch target follow);;
      upstream ← lift (fetch target follow);
      (* Copy headers but strip frame-blocking *)
      forEach (up_headers upstream) copy_header;;
      (* Force permissive frame headers for demo *)
      setHeader "X-Frame-Options" "";;
      setHeader "Content-Security-Policy" "frame-ancestors 'self' *";;
      body ← lift (up_arrayBuffer upstream);
      status (up_status upstream);;
      send (Buffer body).

(** The [catch] block. *)
Definition proxy_catch (err : Js.Error) : Handler unit :=
  call (ConsoleError err);;
  status 500;; send (Text "Proxy error").

(** [app.get('/proxy', async (req, res) => { try {...} catch (err) {...} })] *)
Definition proxy (req : Request) : Handler unit :=
  try_catch (proxy_try req) proxy_catch.

End Handler.

(** *** Vocabulary for the statements *)

(** The world once the handler has answered [code] with [body], leaving the
    headers of [w] alone, after the calls [cs]. *)
Definition answered (code : Z) (body : Body) (cs : list Call) (w : World)
  : World :=
  mkWorld (mkResponse code (headers (res w)) (Some body)) (calls w ++ cs).

(** The [fetch] calls in a list of calls, with their redirect mode. *)
Fixpoint fetches (cs : list Call) : list (string * RedirectMode) :=
  match cs with
  | [] => []
  | Fetch input redirect :: cs' => (input, redirect) :: fetches cs'
  | _ :: cs' => fetches cs'
  end.

(** The inputs of the [URL] constructor calls in a list of calls. *)
Fixpoint parsed (cs : list Call) : list string :=
  match cs with
  | [] => []
  | NewURL input :: cs' => input :: parsed cs'
  | _ :: cs' => parsed cs'
  end.

(** The header table after the copy loop has run over [hs] without a
    throw. *)
Fixpoint copied (hs : list (string * string))
         (table : gmap string (string * string))
  : gmap string (string * string) :=
  match hs with
  | [] => table
  | (key, value) :: hs' =>
      copied hs'
        (if Str.includes ["x-frame-options"; "content-security-policy"]
                         (Str.toLowerCase key)
         then table
         else <[Str.toLowerCase key := (key, value)]> table)
  end.

(** The [try] block from the point where [fetch] has settled. *)
Definition after_fetch (settled : Js.Completion Upstream) : Handler unit :=
  upstream ← lift settled;
  forEach (up_headers upstream) copy_header;;
  setHeader "X-Frame-Options" "";;
  setHeader "Content-Security-Policy" "frame-ancestors 'self' *";;
  body ← lift (up_arrayBuffer upstream);
  status (up_status upstream);;
  send (Buffer body).

(** The header table with the two forced frame headers written over it. *)
Definition forced (table : gmap string (string * string))
  : gmap string (string * string) :=
  <["content-security-policy" :=
      ("Content-Security-Policy", "frame-ancestors 'self' *")]>
    (<["x-frame-options" := ("X-Frame-Options", "")]> table).

(** A header [setHeader] accepts. *)
Definition acceptable (h : string * string) : bool :=
  valid_header_name h.1 && valid_header_value h.2.

(** What two [fetch] outcomes have in common when they differ at most in
    where the redirect chain ended. *)
Definition same_relay (a b : Js.Completion Upstream) : Prop :=
  match a, b with
  | Js.Normal x, Js.Normal y =>
      up_status x = up_status y
      /\ up_headers x = up_headers y
      /\ up_arrayBuffer x = up_arrayBuffer y
  | Js.Throw e, Js.Throw e' => e = e'
  | _, _ => False
  end.

Section Outcome.
Context {URLobj : Type}.
Variable hostname : URLobj -> string.
Variable URL_new : string -> Js.Completion URLobj.
Variable fetch : string -> RedirectMode -> Js.Completion Upstream.

(** The four ways out of the [try] block: the two early returns, the relay,
    and a throw after the [URL] call or after the [fetch] call. *)
Inductive TryOutcome (req : Request) (w : World)
  : Js.Completion unit -> World -> Prop :=
| Missing :
    negb (Js.truthy (query_url req))
    || negb (String.eqb (Js.typeof (query_url req)) "string") = true ->
    TryOutcome req w (Js.Normal tt)
               (answered 400 (Text "Missing url param") [] w)
| Forbidden s u :
    query_url req = Js.Str s -> s <> "" -> URL_new s = Js.Normal u ->
    hostname u ∉ ALLOWLIST ->
    TryOutcome req w (Js.Normal tt)
               (answered 403 (Text "Domain not allowed") [NewURL s] w)
| BadURL s (e : Js.Error) :
    query_url req = Js.Str s -> s <> "" -> URL_new s = Js.Throw e ->
    TryOutcome req w (Js.Throw e) (mkWorld (res w) (calls w ++ [NewURL s]))
| Relayed s u up table bytes :
    query_url req = Js.Str s -> s <> "" -> URL_new s = Js.Normal u ->
    hostname u ∈ ALLOWLIST ->
    fetch s follow = Js.Normal up ->
    up_arrayBuffer up = Js.Normal bytes ->
    forEach (up_headers up) copy_header
            (mkWorld (res w) (calls w ++ [NewURL s; Fetch s follow]))
    = (Js.Normal tt,
       mkWorld (mkResponse (statusCode (res w)) table (sent (res w)))
               (calls w ++ [NewURL s; Fetch s follow])) ->
    TryOutcome req w (Js.Normal tt)
               (mkWorld (mkResponse (up_status up) (forced table)
                                    (Some (Buffer bytes)))
                        (calls w ++ [NewURL s; Fetch s follow]))
| Failed s u (e : Js.Error) w1 :
    query_url req = Js.Str s -> s <> "" -> URL_new s = Js.Normal u ->
    hostname u ∈ ALLOWLIST ->
    calls w1 = (calls w ++ [NewURL s; Fetch s follow])%list ->
    TryOutcome req w (Js.Throw e) w1.

End Outcome.

End Proxy.

(** ** Scenarios

    Concrete platforms and requests, for the statements that are evaluated. *)

Module Scenario.
Import Http Proxy.

(** A ToASCII with no Unicode tables: it refuses whatever reaches it. *)
Definition no_unicode (domain : list ascii) : option (list ascii) := None.

Definition URL_new : string -> Js.Completion Url.URL := Url.URL_new no_unicode.

(** [GET /proxy?url=...] and [GET /proxy]. *)
Definition request (url : string) : Request :=
  mkRequest {[ "url" := Js.Str url ]}.
Definition no_query : Request := mkRequest ∅.

(** A response nothing has been written to yet. *)
Definition fresh : World := mkWorld (mkResponse 200 ∅ None) [].

(** No network. *)
Definition offline (input : string) (redirect : RedirectMode)
  : Js.Completion Upstream :=
  Js.Throw (Js.mkError "TypeError" "fetch failed").

(** A network on which every fetch resolves to [up]. *)
Definition serving (up : Upstream) (input : string) (redirect : RedirectMode)
  : Js.Completion Upstream :=
  Js.Normal up.

Definition body_bytes : list Byte.byte := [Byte.x68; Byte.x69].

(** A page that forbids framing. *)
Definition framed_page : Upstream :=
  mkUpstream 200
    [ ("content-security-policy", "frame-ancestors 'none'");
      ("content-type", "text/html");
      ("x-frame-options", "DENY") ]
    (Js.Normal body_bytes) "https://badssl.com/" false.

(** The same page, reached at another host after a redirect. *)
Definition redirected_page : Upstream :=
  mkUpstream 200
    [ ("content-security-policy", "frame-ancestors 'none'");
      ("content-type", "text/html");
      ("x-frame-options", "DENY") ]
    (Js.Normal body_bytes) "https://evil.example.com/" true.

(** A page that sets two cookies. *)
Definition two_cookies : Upstream :=
  mkUpstream 200
    [ ("content-type", "text/html");
      ("set-cookie", "a=1");
      ("set-cookie", "b=2") ]
    (Js.Normal body_bytes) "https://badssl.com/" false.

(** A page whose body cannot be read to the end. *)
Definition broken_body : Upstream :=
  mkUpstream 200 [ ("content-type", "text/html") ]
    (Js.Throw (Js.mkError "TypeError" "terminated")) "https://badssl.com/" false.

(** A page whose body breaks off, with a header of its own. *)
Definition cut_short : Upstream :=
  mkUpstream 200
    [ ("cache-control", "no-store");
      ("content-type", "text/html") ]
    (Js.Throw (Js.mkError "TypeError" "terminated")) "https://badssl.com/" false.

(** A response that already carries the CORS header. *)
Definition with_cors : World :=
  mkWorld (mkResponse 200
             {[ "access-control-allow-origin" :=
                  ("Access-Control-Allow-Origin", "*") ]} None) [].

Definition run (fetch : string -> RedirectMode -> Js.Completion Upstream)
           (req : Request) : Js.Completion unit * World :=
  proxy Url.hostname URL_new fetch req fresh.

End Scenario.

(** * Properties *)

Import Http Proxy.
Local Open Scope list_scope.

(** ** Strings and the allow-list *)

Lemma includes_elem_of (l : list string) (x : string) :
  Str.includes l x = true <-> x ∈ l.
Proof.
  induction l as [|y l IH]; simpl.
  - split; [discriminate | intros H; inversion H].
  - destruct (String.eqb_spec y x) as [->|Hne].
    + split; [intros _; left | reflexivity].
    + rewrite IH. split; [intros H; by right |].
      intros H. inversion H; subst; [congruence | assumption].
Qed.

Lemma includes_not_elem_of (l : list string) (x : string) :
  Str.includes l x = false <-> x ∉ l.
Proof.
  rewrite <- includes_elem_of. destruct (Str.includes l x); split; congruence.
Qed.

Lemma ALLOWLIST_entries (h : string) :
  h ∈ ALLOWLIST <->
  h = "testphp.vulnweb.com" \/ h = "juice-shop.herokuapp.com"
  \/ h = "juice-shop.github.io" \/ h = "badssl.com".
Proof.
  unfold ALLOWLIST. rewrite !elem_of_cons, elem_of_nil. tauto.
Qed.

(** ** The guard on [req.query.url] *)

Lemma guard_not_string (v : Js.Value) :
  Js.typeof v <> "string" ->
  negb (Js.truthy v) || negb (String.eqb (Js.typeof v) "string") = true.
Proof.
  intros H. destruct v; simpl in *; try reflexivity. congruence.
Qed.

Lemma guard_string (s : string) :
  negb (Js.truthy (Js.Str s)) || negb (String.eqb (Js.typeof (Js.Str s)) "string")
  = String.eqb s "".
Proof.
  simpl. destruct (String.eqb s ""); reflexivity.
Qed.

#[local] Arguments Str.includes : simpl never.
#[local] Arguments Str.toLowerCase : simpl never.

Ltac handler_unfold :=
  unfold proxy, try_catch, proxy_try, proxy_catch, mbind, Handler_bind, mret,
    Handler_ret, Http.bind, Http.ret, status, send, call, lift, modify_res,
    answered.

Section Branches.
Context {URLobj : Type}.
Variable hostname : URLobj -> string.
Variable URL_new : string -> Js.Completion URLobj.
Variable fetch : string -> RedirectMode -> Js.Completion Upstream.

Local Abbreviation proxy := (proxy hostname URL_new fetch).
Local Abbreviation proxy_try := (proxy_try hostname URL_new fetch).

(** The first [return]: no [url], or one that is not a string, or the empty
    string. *)
Lemma try_missing (req : Request) (w : World) :
  negb (Js.truthy (query_url req))
  || negb (String.eqb (Js.typeof (query_url req)) "string") = true ->
  proxy_try req w
  = (Js.Normal tt, answered 400 (Text "Missing url param") [] w).
Proof.
  intros H. handler_unfold. rewrite H. simpl. by rewrite app_nil_r.
Qed.

(** The constructor throws. *)
Lemma try_bad_url (req : Request) (w : World) (s : string) (e : Js.Error) :
  query_url req = Js.Str s -> s <> "" -> URL_new s = Js.Throw e ->
  proxy_try req w = (Js.Throw e, mkWorld (res w) (calls w ++ [NewURL s])).
Proof.
  intros Hq Hs Hu. handler_unfold. rewrite Hq, guard_string.
  destruct (String.eqb_spec s ""); [congruence|]. simpl. by rewrite Hu.
Qed.

(** The second [return]: the host is not on the list. *)
Lemma try_forbidden (req : Request) (w : World) (s : string) (u : URLobj) :
  query_url req = Js.Str s -> s <> "" -> URL_new s = Js.Normal u ->
  hostname u ∉ ALLOWLIST ->
  proxy_try req w
  = (Js.Normal tt, answered 403 (Text "Domain not allowed") [NewURL s] w).
Proof.
  intros Hq Hs Hu Hh. handler_unfold. rewrite Hq, guard_string.
  destruct (String.eqb_spec s ""); [congruence|]. simpl. rewrite Hu.
  apply includes_not_elem_of in Hh. by rewrite Hh.
Qed.

(** The [catch] block. *)
Lemma catch_answers (req : Request) (w w1 : World) (e : Js.Error) :
  proxy_try req w = (Js.Throw e, w1) ->
  proxy req w
  = (Js.Normal tt, answered 500 (Text "Proxy error") [ConsoleError e] w1).
Proof.
  intros H. unfold Proxy.proxy, try_catch. rewrite H. reflexivity.
Qed.

Lemma try_returns (req : Request) (w w1 : World) :
  proxy_try req w = (Js.Normal tt, w1) ->
  proxy req w = (Js.Normal tt, w1).
Proof.
  intros H. unfold Proxy.proxy, try_catch. by rewrite H.
Qed.

(** The third way through: the host is on the list, and the rest is up to
    what [fetch] gives. *)
Lemma try_allowed (req : Request) (w : World) (s : string) (u : URLobj) :
  query_url req = Js.Str s -> s <> "" -> URL_new s = Js.Normal u ->
  hostname u ∈ ALLOWLIST ->
  proxy_try req w
  = after_fetch (fetch s follow)
      (mkWorld (res w) (calls w ++ [NewURL s; Fetch s follow])).
Proof.
  intros Hq Hs Hu Hh. unfold Proxy.proxy_try, after_fetch.
  rewrite Hq, guard_string.
  destruct (String.eqb_spec s ""); [congruence|].
  handler_unfold. simpl. rewrite Hu.
  apply includes_elem_of in Hh. rewrite Hh. simpl.
  by rewrite <- app_assoc.
Qed.

End Branches.

(** ** The copy loop and the forced headers *)

Lemma setHeader_accepts (name value : string) (w : World) :
  acceptable (name, value) = true ->
  setHeader name value w
  = (Js.Normal tt,
     mkWorld (mkResponse (statusCode (res w))
                (<[Str.toLowerCase name := (name, value)]> (headers (res w)))
                (sent (res w)))
             (calls w)).
Proof.
  unfold acceptable, setHeader. simpl. intros [Hn Hv]%andb_true_iff.
  by rewrite Hn, Hv.
Qed.

(** [setHeader] touches nothing but the header table, and throws without
    touching anything. *)
Lemma setHeader_frame (name value : string) (w w' : World)
      (c : Js.Completion unit) :
  setHeader name value w = (c, w') ->
  calls w' = calls w /\ statusCode (res w') = statusCode (res w)
  /\ sent (res w') = sent (res w).
Proof.
  unfold setHeader, throw, modify_res.
  destruct (negb (valid_header_name name));
    [|destruct (negb (valid_header_value value))];
    intros [= <- <-]; simpl; auto.
Qed.

Lemma forEach_copy_frame (hs : list (string * string)) (w w' : World)
      (c : Js.Completion unit) :
  forEach hs copy_header w = (c, w') ->
  calls w' = calls w /\ statusCode (res w') = statusCode (res w)
  /\ sent (res w') = sent (res w).
Proof.
  revert w. induction hs as [|[key value] hs IH]; intros w; simpl.
  - intros [= <- <-]. auto.
  - unfold Http.bind, copy_header.
    destruct (Str.includes _ (Str.toLowerCase key)).
    + simpl. apply IH.
    + destruct (setHeader key value w) as [[[]|e] w1] eqn:Hset;
        apply setHeader_frame in Hset as (Hc & Hs & Hb).
      * intros H. apply IH in H as (-> & -> & ->). auto.
      * intros [= <- <-]. auto.
Qed.

(** With headers Node accepts, the loop does not throw and leaves [copied]. *)
Lemma forEach_copy_accepts (hs : list (string * string)) (w : World) :
  forallb acceptable hs = true ->
  forEach hs copy_header w
  = (Js.Normal tt,
     mkWorld (mkResponse (statusCode (res w)) (copied hs (headers (res w)))
                         (sent (res w)))
             (calls w)).
Proof.
  revert w. induction hs as [|[key value] hs IH]; intros w; simpl.
  - intros _. by destruct w as [[] ?].
  - intros [Hh Hhs]%andb_true_iff. unfold Http.bind, copy_header.
    destruct (Str.includes _ (Str.toLowerCase key)).
    + simpl. by rewrite IH.
    + rewrite setHeader_accepts by assumption. by rewrite IH.
Qed.

Lemma force_frame_headers (w : World) :
  (setHeader "X-Frame-Options" "";;
   setHeader "Content-Security-Policy" "frame-ancestors 'self' *") w
  = (Js.Normal tt,
     mkWorld (mkResponse (statusCode (res w)) (forced (headers (res w)))
                         (sent (res w)))
             (calls w)).
Proof. reflexivity. Qed.

(** Every way [after_fetch] can end. *)
Lemma after_fetch_cases (settled : Js.Completion Upstream) (w : World) :
  (exists e w1, after_fetch settled w = (Js.Throw e, w1) /\ calls w1 = calls w)
  \/ (exists up table bytes,
        settled = Js.Normal up /\ up_arrayBuffer up = Js.Normal bytes
        /\ forEach (up_headers up) copy_header w
           = (Js.Normal tt,
              mkWorld (mkResponse (statusCode (res w)) table (sent (res w)))
                      (calls w))
        /\ after_fetch settled w
           = (Js.Normal tt,
              mkWorld (mkResponse (up_status up) (forced table)
                                  (Some (Buffer bytes)))
                      (calls w))).
Proof.
  destruct settled as [up|e].
  2:{ left. exists e, w. split; reflexivity. }
  unfold after_fetch, mbind, Handler_bind, Http.bind, lift.
  destruct (forEach (up_headers up) copy_header w) as [[[]|e] w1] eqn:Hcopy.
  2:{ left. exists e, w1. split; [reflexivity|].
      by apply forEach_copy_frame in Hcopy as (? & _). }
  pose proof (forEach_copy_frame _ _ _ _ Hcopy) as (Hc & Hs & Hb).
  pose proof (force_frame_headers w1) as Hforce.
  unfold mbind, Handler_bind, Http.bind in Hforce.
  destruct (setHeader "X-Frame-Options" "" w1) as [[[]|e1] w2];
    [|discriminate Hforce].
  rewrite Hforce. clear Hforce.
  destruct (up_arrayBuffer up) as [bytes|e] eqn:Hbody.
  - right. exists up, (headers (res w1)), bytes.
    split; [reflexivity|]. split; [assumption|]. split.
    + rewrite Hcopy. destruct w1 as [[] ?]; simpl in *; by subst.
    + simpl. by rewrite Hc.
  - left. eexists _, _. split; [reflexivity|]. simpl. assumption.
Qed.

(** ** Where a throw can come from

    Besides the [URL] constructor ([try_bad_url]): [fetch], [setHeader]
    inside the copy loop, and the read of the body. *)

Section Throws.
Context {URLobj : Type}.
Variable hostname : URLobj -> string.
Variable URL_new : string -> Js.Completion URLobj.
Variable fetch : string -> RedirectMode -> Js.Completion Upstream.

Local Abbreviation proxy_try := (proxy_try hostname URL_new fetch).

Lemma try_fetch_rejects (req : Request) (w : World) (s : string) (u : URLobj)
      (e : Js.Error) :
  query_url req = Js.Str s -> s <> "" -> URL_new s = Js.Normal u ->
  hostname u ∈ ALLOWLIST ->
  fetch s follow = Js.Throw e ->
  proxy_try req w
  = (Js.Throw e, mkWorld (res w) (calls w ++ [NewURL s; Fetch s follow])).
Proof.
  intros Hq Hs Hu Hh Hf.
  rewrite (try_allowed _ _ _ _ _ _ _ Hq Hs Hu Hh), Hf. reflexivity.
Qed.

Lemma try_copy_throws (req : Request) (w w2 : World) (s : string) (u : URLobj)
      (up : Upstream) (e : Js.Error) :
  query_url req = Js.Str s -> s <> "" -> URL_new s = Js.Normal u ->
  hostname u ∈ ALLOWLIST ->
  fetch s follow = Js.Normal up ->
  forEach (up_headers up) copy_header
          (mkWorld (res w) (calls w ++ [NewURL s; Fetch s follow]))
  = (Js.Throw e, w2) ->
  proxy_try req w = (Js.Throw e, w2).
Proof.
  intros Hq Hs Hu Hh Hf Hcopy.
  rewrite (try_allowed _ _ _ _ _ _ _ Hq Hs Hu Hh), Hf.
  unfold after_fetch, mbind, Handler_bind, Http.bind, lift.
  by rewrite Hcopy.
Qed.

(** The forced headers are in place by the time the body is read. *)
Lemma try_body_rejects (req : Request) (w : World) (s : string) (u : URLobj)
      (up : Upstream) (e : Js.Error) :
  query_url req = Js.Str s -> s <> "" -> URL_new s = Js.Normal u ->
  hostname u ∈ ALLOWLIST ->
  fetch s follow = Js.Normal up ->
  forallb acceptable (up_headers up) = true ->
  up_arrayBuffer up = Js.Throw e ->
  proxy_try req w
  = (Js.Throw e,
     mkWorld (mkResponse (statusCode (res w))
                (forced (copied (up_headers up) (headers (res w))))
                (sent (res w)))
             (calls w ++ [NewURL s; Fetch s follow])).
Proof.
  intros Hq Hs Hu Hh Hf Hok Hb.
  rewrite (try_allowed _ _ _ _ _ _ _ Hq Hs Hu Hh), Hf.
  unfold after_fetch, mbind, Handler_bind, Http.bind, lift.
  rewrite (forEach_copy_accepts _ _ Hok).
  match goal with
  | |- context [setHeader "X-Frame-Options" "" ?w1] =>
      pose proof (force_frame_headers w1) as Hforce
  end.
  unfold mbind, Handler_bind, Http.bind in Hforce.
  destruct (setHeader "X-Frame-Options" "" _) as [[[]|e1] w2];
    [|discriminate Hforce].
  by rewrite Hforce, Hb.
Qed.

End Throws.

(** ** Every way the handler can end *)

Lemma guard_false (v : Js.Value) :
  negb (Js.truthy v) || negb (String.eqb (Js.typeof v) "string") = false ->
  exists s, v = Js.Str s /\ s <> "".
Proof.
  destruct v as [|s| |]; simpl; try discriminate.
  destruct (String.eqb_spec s ""); [discriminate|]. intros _. eauto.
Qed.

Section Outcomes.
Context {URLobj : Type}.
Variable hostname : URLobj -> string.
Variable URL_new : string -> Js.Completion URLobj.
Variable fetch : string -> RedirectMode -> Js.Completion Upstream.

Local Abbreviation proxy := (proxy hostname URL_new fetch).
Local Abbreviation proxy_try := (proxy_try hostname URL_new fetch).

Lemma proxy_try_outcome (req : Request) (w : World) :
  TryOutcome hostname URL_new fetch req w (proxy_try req w).1 (proxy_try req w).2.
Proof.
  destruct (negb (Js.truthy (query_url req))
            || negb (String.eqb (Js.typeof (query_url req)) "string"))
    eqn:Hguard.
  { rewrite try_missing by assumption. by constructor. }
  apply guard_false in Hguard as (s & Hq & Hs).
  destruct (URL_new s) as [u|e] eqn:Hu.
  2:{ erewrite try_bad_url by eassumption. by econstructor. }
  destruct (decide (hostname u ∈ ALLOWLIST)) as [Hin|Hout].
  2:{ erewrite try_forbidden by eassumption. by econstructor. }
  erewrite try_allowed by eassumption.
  destruct (after_fetch_cases (fetch s follow)
              (mkWorld (res w) (calls w ++ [NewURL s; Fetch s follow])))
    as [(e & w1 & -> & Hc) | (up & table & bytes & Hf & Hb & Hcopy & ->)].
  - simpl. by eapply Failed.
  - simpl. by eapply Relayed.
Qed.

End Outcomes.

(** ** The header table of a relayed response *)

Lemma copied_app (a b : list (string * string))
      (table : gmap string (string * string)) :
  copied (a ++ b) table = copied b (copied a table).
Proof.
  revert table. induction a as [|[key value] a IH]; intros table; simpl;
    [reflexivity | apply IH].
Qed.

(** Headers under other names do not disturb an entry. *)
Lemma copied_lookup_other (hs : list (string * string))
      (table : gmap string (string * string)) (k : string) :
  (forall key value, (key, value) ∈ hs -> Str.toLowerCase key <> k) ->
  copied hs table !! k = table !! k.
Proof.
  revert table. induction hs as [|[key value] hs IH]; intros table Hne; simpl;
    [reflexivity|].
  rewrite IH by (intros ? ? ?; eapply Hne; by right).
  destruct (Str.includes _ _); [reflexivity|].
  apply lookup_insert_ne. eapply Hne. by left.
Qed.

(** A header that is not stripped, and whose name does not come again later
    in the iteration, is in the table after the loop. *)
Lemma copied_lookup_last (before after : list (string * string))
      (key value : string) (table : gmap string (string * string)) :
  Str.includes ["x-frame-options"; "content-security-policy"]
               (Str.toLowerCase key) = false ->
  (forall key' value', (key', value') ∈ after ->
                       Str.toLowerCase key' <> Str.toLowerCase key) ->
  copied (before ++ (key, value) :: after) table !! Str.toLowerCase key
  = Some (key, value).
Proof.
  intros Hkeep Hlast. rewrite copied_app. simpl. rewrite Hkeep.
  rewrite copied_lookup_other by assumption. apply lookup_insert_eq.
Qed.

Lemma forced_lookup_other (table : gmap string (string * string)) (k : string) :
  Str.includes ["x-frame-options"; "content-security-policy"] k = false ->
  forced table !! k = table !! k.
Proof.
  intros H. apply includes_not_elem_of in H.
  unfold forced. rewrite !lookup_insert_ne; [reflexivity| |];
    intros <-; apply H; repeat constructor.
Qed.

Lemma forced_x_frame_options (table : gmap string (string * string)) :
  forced table !! "x-frame-options" = Some ("X-Frame-Options", "").
Proof.
  unfold forced. rewrite lookup_insert_ne by discriminate.
  apply lookup_insert_eq.
Qed.

Lemma forced_content_security_policy (table : gmap string (string * string)) :
  forced table !! "content-security-policy"
  = Some ("Content-Security-Policy", "frame-ancestors 'self' *").
Proof. unfold forced. apply lookup_insert_eq. Qed.

Section Claims.
Context {URLobj : Type}.
Variable hostname : URLobj -> string.
Variable URL_new : string -> Js.Completion URLobj.
Variable fetch : string -> RedirectMode -> Js.Completion Upstream.

Local Abbreviation proxy := (proxy hostname URL_new fetch).
Local Abbreviation proxy_try := (proxy_try hostname URL_new fetch).

(** The handler always completes: the [catch] block takes every throw. *)
Lemma proxy_completes (req : Request) (w : World) :
  (proxy req w).1 = Js.Normal tt.
Proof.
  unfold Proxy.proxy, try_catch.
  destruct (proxy_try req w) as [[[]|e] w1]; reflexivity.
Qed.

(** Whatever host is on the list is fetched, once, as the caller wrote it,
    after the one [URL] call; what follows makes no further call but,
    at most, [console.error]. *)
Lemma allowed_is_fetched (req : Request) (w : World) (s : string) (u : URLobj) :
  query_url req = Js.Str s -> s <> "" -> URL_new s = Js.Normal u ->
  hostname u ∈ ALLOWLIST ->
  exists w' rest,
    proxy req w = (Js.Normal tt, w')
    /\ calls w' = calls w ++ NewURL s :: Fetch s follow :: rest
    /\ parsed rest = [] /\ fetches rest = [].
Proof.
  intros Hq Hs Hu Hh. unfold Proxy.proxy, try_catch.
  rewrite (try_allowed _ _ _ _ _ _ _ Hq Hs Hu Hh).
  destruct (after_fetch_cases (fetch s follow)
              (mkWorld (res w) (calls w ++ [NewURL s; Fetch s follow])))
    as [(e & w1 & -> & Hc) | (up & table & bytes & _ & _ & _ & ->)].
  - eexists _, [ConsoleError e]. split; [reflexivity|]. simpl.
    rewrite Hc. simpl. by rewrite <- app_assoc.
  - eexists _, []. split; [reflexivity|]. simpl. done.
Qed.

(** C4. A request whose [url] query parameter is absent, or is not a
    string, is answered 400 with the body "Missing url param"; the answer
    is the same whatever the [URL] constructor and [fetch] would do, no call
    is made to either, and the headers are left alone. *)
Theorem missing_url_is_400 (req : Request) (w : World) :
  query req !! "url" = None \/ Js.typeof (query_url req) <> "string" ->
  proxy req w
  = (Js.Normal tt,
     mkWorld (mkResponse 400 (headers (res w)) (Some (Text "Missing url param")))
             (calls w)).
Proof.
  intros H.
  assert (Js.typeof (query_url req) <> "string") as Hty.
  { destruct H as [H|H]; [|assumption].
    unfold query_url. rewrite H. discriminate. }
  apply try_returns. rewrite try_missing by by apply guard_not_string.
  unfold answered. by rewrite app_nil_r.
Qed.

(** C6. When anything inside the [try] block throws, the handler logs the
    error with [console.error] and answers 500 with the body "Proxy error";
    it has called [fetch] at most once by then and does not call it again;
    and no request makes the handler itself throw. *)
Theorem exception_is_500 (req : Request) (w w1 : World) (e : Js.Error) :
  proxy_try req w = (Js.Throw e, w1) ->
  proxy req w
  = (Js.Normal tt,
     mkWorld (mkResponse 500 (headers (res w1)) (Some (Text "Proxy error")))
             (calls w1 ++ [ConsoleError e]))
  /\ (exists cs, calls w1 = calls w ++ cs /\ length (fetches cs) <= 1)%nat
  /\ (forall req' w', (proxy req' w').1 = Js.Normal tt).
Proof.
  intros Htry. split; [by apply catch_answers|]. split; [|apply proxy_completes].
  pose proof (proxy_try_outcome hostname URL_new fetch req w) as Hout.
  rewrite Htry in Hout. simpl in Hout.
  inversion Hout; subst.
  - eexists. split; [reflexivity|]. simpl. lia.
  - eexists. split; [eassumption|]. simpl. lia.
Qed.

(** C3. A response that relays an upstream one (it ends with the upstream
    bytes sent as a [Buffer], under the upstream status) has
    [X-Frame-Options] set to the empty string and [Content-Security-Policy]
    set to "frame-ancestors 'self' *", whatever status and headers the
    upstream sent; under no spelling of either name does it carry another
    value. *)
Theorem relay_forces_frame_headers (req : Request) (w w' : World)
        (bytes : list Byte.byte) :
  proxy req w = (Js.Normal tt, w') ->
  sent (res w') = Some (Buffer bytes) ->
  (exists s up, fetch s follow = Js.Normal up
                /\ up_arrayBuffer up = Js.Normal bytes
                /\ statusCode (res w') = up_status up)
  /\ getHeader (res w') "X-Frame-Options" = Some ""
  /\ getHeader (res w') "Content-Security-Policy"
     = Some "frame-ancestors 'self' *"
  /\ (forall name value,
        getHeader (res w') name = Some value ->
        (Str.toLowerCase name = "x-frame-options" -> value = "")
        /\ (Str.toLowerCase name = "content-security-policy" ->
            value = "frame-ancestors 'self' *")).
Proof.
  intros Hrun Hsent.
  pose proof (proxy_try_outcome hostname URL_new fetch req w) as Hout.
  unfold Proxy.proxy, try_catch in Hrun.
  destruct (proxy_try req w) as [[[]|e] w1]; simpl in Hout.
  2:{ injection Hrun as <-. discriminate Hsent. }
  injection Hrun as <-.
  inversion Hout; subst; try discriminate Hsent.
  simpl in Hsent. injection Hsent as ->.
  split; [eauto|]. unfold getHeader. simpl.
  split; [by rewrite forced_x_frame_options|].
  split; [by rewrite forced_content_security_policy|].
  intros name value Hget. split; intros Hname; rewrite Hname in Hget.
  - rewrite forced_x_frame_options in Hget. by injection Hget.
  - rewrite forced_content_security_policy in Hget. by injection Hget.
Qed.

(** C8. A request turned away for its [url] (missing or not a string: 400)
    or for its host (not on the list: 403) ends with that status, with the
    headers exactly as they were and with no [fetch] call made. *)
Theorem rejection_has_no_effect (req : Request) (w : World) :
  (Js.typeof (query_url req) <> "string"
   \/ exists s u, query_url req = Js.Str s /\ s <> ""
                  /\ URL_new s = Js.Normal u /\ hostname u ∉ ALLOWLIST) ->
  exists w',
    proxy req w = (Js.Normal tt, w')
    /\ (statusCode (res w') = 400 /\ Js.typeof (query_url req) <> "string"
        \/ statusCode (res w') = 403 /\ Js.typeof (query_url req) = "string")
    /\ headers (res w') = headers (res w)
    /\ getHeader (res w') "X-Frame-Options" = getHeader (res w) "X-Frame-Options"
    /\ getHeader (res w') "Content-Security-Policy"
       = getHeader (res w) "Content-Security-Policy"
    /\ fetches (calls w') = fetches (calls w).
Proof.
  intros [Hty | (s & u & Hq & Hs & Hu & Hh)].
  - eexists. split.
    { apply try_returns, try_missing. by apply guard_not_string. }
    simpl. rewrite app_nil_r. auto 10.
  - eexists. split.
    { apply try_returns. by eapply try_forbidden. }
    simpl. rewrite Hq. split; [by right|].
    assert (forall a b, fetches (a ++ b) = fetches a ++ fetches b) as Happ.
    { intros a b. induction a as [|[] a IH]; simpl; congruence. }
    rewrite Happ. simpl. rewrite app_nil_r. auto.
Qed.

End Claims.

(** ** Redirects *)

(** From the fetch on, the handler reads the status, the headers and the
    body of what it is given, and not where it came from. *)
Lemma after_fetch_same_relay (a b : Js.Completion Upstream) (w : World) :
  same_relay a b -> after_fetch a w = after_fetch b w.
Proof.
  destruct a as [x|e], b as [y|e']; simpl; try contradiction.
  - intros (Hs & Hh & Hb). unfold after_fetch, mbind, Handler_bind, Http.bind, lift.
    by rewrite Hs, Hh, Hb.
  - by intros ->.
Qed.

(** C7. For a request whose host is on the list the handler calls the [URL]
    constructor once, on the caller's string, then [fetch] once, on the same
    string with [redirect: 'follow'], and makes neither call again; and its
    answer is the same wherever the redirect chain ended: two fetch outcomes
    that agree on status, headers and body are relayed alike, whatever final
    address each reports. *)
Theorem redirects_are_not_revalidated {URLobj : Type}
        (hostname : URLobj -> string)
        (URL_new : string -> Js.Completion URLobj)
        (fetch : string -> RedirectMode -> Js.Completion Upstream)
        (req : Request) (w : World) (s : string) (u : URLobj) :
  query_url req = Js.Str s -> s <> "" -> URL_new s = Js.Normal u ->
  hostname u ∈ ALLOWLIST ->
  (exists w' rest,
      proxy hostname URL_new fetch req w = (Js.Normal tt, w')
      /\ calls w' = calls w ++ NewURL s :: Fetch s follow :: rest
      /\ parsed rest = [] /\ fetches rest = [])
  /\ (forall fetch' : string -> RedirectMode -> Js.Completion Upstream,
        same_relay (fetch s follow) (fetch' s follow) ->
        proxy hostname URL_new fetch' req w = proxy hostname URL_new fetch req w).
Proof.
  intros Hq Hs Hu Hh. split; [by eapply allowed_is_fetched|].
  intros fetch' Hsame. unfold proxy, try_catch.
  rewrite !(try_allowed _ _ _ _ _ _ _ Hq Hs Hu Hh).
  by rewrite (after_fetch_same_relay _ _ _ Hsame).
Qed.

(** ** With the URL Standard's parser *)

Lemma URL_new_nonempty (idna : list ascii -> option (list ascii))
      (s : string) (u : Url.URL) :
  Url.URL_new idna s = Js.Normal u -> s <> "".
Proof. intros H ->. discriminate H. Qed.

(** C1. A request whose [url] parses as an absolute URL with a hostname that
    is none of testphp.vulnweb.com, juice-shop.herokuapp.com,
    juice-shop.github.io and badssl.com is answered 403 with the body
    "Domain not allowed", after the one [URL] call and with the headers left
    alone; and those four names are the allow-list. *)
Theorem foreign_host_is_403 (idna : list ascii -> option (list ascii))
        (fetch : string -> RedirectMode -> Js.Completion Upstream)
        (req : Request) (w : World) (s : string) (u : Url.URL) :
  query_url req = Js.Str s ->
  Url.URL_new idna s = Js.Normal u ->
  Url.hostname u ∉ [ "testphp.vulnweb.com"; "juice-shop.herokuapp.com";
                     "juice-shop.github.io"; "badssl.com" ] ->
  proxy Url.hostname (Url.URL_new idna) fetch req w
  = (Js.Normal tt,
     mkWorld (mkResponse 403 (headers (res w)) (Some (Text "Domain not allowed")))
             (calls w ++ [NewURL s]))
  /\ ALLOWLIST = [ "testphp.vulnweb.com"; "juice-shop.herokuapp.com";
                   "juice-shop.github.io"; "badssl.com" ].
Proof.
  intros Hq Hu Hh. split; [|reflexivity].
  apply try_returns. eapply try_forbidden; try eassumption.
  by eapply URL_new_nonempty.
Qed.

(** C5, as the code has it. A [url] that is a string the [URL] constructor
    refuses is not answered 400 for being malformed: the constructor's
    [TypeError] lands in the [catch] block, which logs it and answers 500
    with the body "Proxy error", no fetch made. Only the empty string gets a
    400, from the missing-parameter check and with its body. *)
Theorem unparseable_url_is_500 (idna : list ascii -> option (list ascii))
        (fetch : string -> RedirectMode -> Js.Completion Upstream)
        (req : Request) (w : World) (s : string) (e : Js.Error) :
  query_url req = Js.Str s ->
  Url.URL_new idna s = Js.Throw e ->
  proxy Url.hostname (Url.URL_new idna) fetch req w
  = (Js.Normal tt,
     if String.eqb s "" then
       mkWorld (mkResponse 400 (headers (res w)) (Some (Text "Missing url param")))
               (calls w)
     else
       mkWorld (mkResponse 500 (headers (res w)) (Some (Text "Proxy error")))
               (calls w ++ [NewURL s; ConsoleError e])).
Proof.
  intros Hq Hu. destruct (String.eqb_spec s "") as [->|Hs].
  - apply try_returns. rewrite try_missing by (rewrite Hq; reflexivity).
    unfold answered. by rewrite app_nil_r.
  - erewrite catch_answers by (by eapply try_bad_url).
    unfold answered. simpl. by rewrite <- app_assoc.
Qed.

(** C9, as the code has it. The host check looks at the hostname and at
    nothing else: the hostname is read off the host alone, and whatever the
    scheme, the credentials, the port and the path, query and fragment of the
    parsed URL, the handler calls fetch, once and with the caller's string,
    exactly when the hostname is on the list, and answers 403 when it is
    not. But passing
    the check is not being fetched: fetch refuses a URL that includes
    credentials, or whose scheme it does not serve, before any request is
    made, whatever the network would have answered, and the handler then
    answers 500 "Proxy error". *)
Theorem host_check_reads_hostname_only
        (idna : list ascii -> option (list ascii))
        (fetch serve : string -> RedirectMode -> Js.Completion Upstream)
        (req : Request) (w : World) (s : string)
        (sch user pass : list ascii) (h : option Url.Host) (port : option N)
        (tail : list ascii) :
  query_url req = Js.Str s ->
  Url.URL_new idna s = Js.Normal (Url.mkURL sch user pass h port tail) ->
  let u := Url.mkURL sch user pass h port tail in
  let name := Url.hostname (Url.mkURL [] [] [] h None []) in
  let w' := (proxy Url.hostname (Url.URL_new idna) fetch req w).2 in
  let w'' := (proxy Url.hostname (Url.URL_new idna) (Fetch.fetch idna serve)
                    req w).2 in
  Url.hostname u = name
  /\ (name ∈ ALLOWLIST
      <-> exists rest,
            calls w' = calls w ++ NewURL s :: Fetch s follow :: rest
            /\ fetches rest = [])
  /\ (name ∉ ALLOWLIST ->
      statusCode (res w') = 403
      /\ sent (res w') = Some (Text "Domain not allowed")
      /\ calls w' = calls w ++ [NewURL s])
  /\ (name ∈ ALLOWLIST ->
      Fetch.includes_credentials u = true \/ Fetch.serves u = false ->
      exists e,
        (forall serve', Fetch.fetch idna serve' s follow = Js.Throw e)
        /\ statusCode (res w'') = 500
        /\ sent (res w'') = Some (Text "Proxy error")
        /\ calls w'' = calls w ++ [NewURL s; Fetch s follow; ConsoleError e]).
Proof.
  intros Hq Hu. cbv zeta.
  pose proof (URL_new_nonempty _ _ _ Hu) as Hs.
  split; [reflexivity|].
  assert (Url.hostname (Url.mkURL [] [] [] h None []) ∉ ALLOWLIST ->
          proxy Url.hostname (Url.URL_new idna) fetch req w
          = (Js.Normal tt,
             answered 403 (Text "Domain not allowed") [NewURL s] w)) as Hout.
  { intros Hh. apply try_returns. by eapply try_forbidden. }
  split; [split|split].
  - intros Hh.
    destruct (allowed_is_fetched Url.hostname (Url.URL_new idna) fetch req w s _
                Hq Hs Hu Hh) as (w' & rest & Hrun & Hcalls & _ & Hno).
    exists rest. by rewrite Hrun.
  - intros (rest & Hcalls & _).
    destruct (decide (Url.hostname (Url.mkURL [] [] [] h None []) ∈ ALLOWLIST))
      as [Hin|Hh]; [assumption|].
    rewrite (Hout Hh) in Hcalls. simpl in Hcalls.
    apply app_inv_head in Hcalls. discriminate Hcalls.
  - intros Hh. rewrite (Hout Hh). by simpl.
  - intros Hh Hrefused.
    assert (exists e, forall serve',
               Fetch.fetch idna serve' s follow = Js.Throw e) as (e & He).
    { unfold Fetch.fetch. rewrite Hu.
      destruct (Fetch.includes_credentials _) eqn:Hc; [eauto|].
      destruct (Fetch.serves _) eqn:Hserves; [|simpl; eauto].
      destruct Hrefused; discriminate. }
    exists e. split; [exact He|].
    erewrite catch_answers by (by eapply try_fetch_rejects).
    simpl. by rewrite <- app_assoc.
Qed.

(** ** Letter case in the host *)

Lemma chars_of_chars (l : list ascii) : Str.chars (Str.of_chars l) = l.
Proof. apply list_ascii_of_string_of_list_ascii. Qed.

Lemma of_chars_chars (s : string) : Str.of_chars (Str.chars s) = s.
Proof. apply string_of_list_ascii_of_string. Qed.

Lemma toLowerCase_of_chars (l : list ascii) :
  Str.toLowerCase (Str.of_chars l) = Str.of_chars (Url.lower_all l).
Proof.
  induction l as [|c l IH]; [reflexivity|].
  simpl. unfold Str.toLowerCase; fold Str.toLowerCase. by rewrite IH.
Qed.

Lemma ALLOWLIST_lowercase (e : string) :
  e ∈ ALLOWLIST -> Str.toLowerCase e = e.
Proof.
  intros [-> | [-> | [-> | ->]]]%ALLOWLIST_entries; reflexivity.
Qed.

Ltac each_ascii c :=
  destruct c as [[] [] [] [] [] [] [] []].

Lemma name_char_lower (c : ascii) :
  Url.is_name_char (Str.lower c) = Url.is_name_char c.
Proof. each_ascii c; reflexivity. Qed.

Lemma name_char_plain (c : ascii) :
  Url.is_name_char c = true ->
  Url.is_char c "%" = false /\ Url.is_char "[" c = false
  /\ (Url.code c <? 128)%N = true.
Proof. each_ascii c; intros H; try discriminate H; repeat split. Qed.

Lemma name_chars_lower (l : list ascii) :
  forallb Url.is_name_char (Url.lower_all l) = forallb Url.is_name_char l.
Proof.
  induction l as [|c l IH]; [reflexivity|].
  simpl. by rewrite name_char_lower, IH.
Qed.

Lemma percent_decode_name_chars (l : list ascii) :
  forallb Url.is_name_char l = true -> Url.percent_decode l = l.
Proof.
  induction l as [|c l IH]; [reflexivity|].
  intros [Hc Hl]%andb_true_iff. apply name_char_plain in Hc as (Hc & _).
  simpl. rewrite Hc. simpl. rewrite (IH Hl). by destruct l as [|? [|? ?]].
Qed.

Lemma ascii_only_name_chars (l : list ascii) :
  forallb Url.is_name_char l = true -> Url.is_ascii_only l = true.
Proof.
  unfold Url.is_ascii_only. induction l as [|c l IH]; [reflexivity|].
  intros [Hc Hl]%andb_true_iff. apply name_char_plain in Hc as (_ & _ & Hc).
  cbn [forallb]. by rewrite Hc, IH.
Qed.

(** The host parser, on a special URL's host that is an allow-list name but
    for the case of its letters: the name. *)
Lemma host_parse_case_variant (idna : list ascii -> option (list ascii))
      (buffer : list ascii) (e : string) :
  e ∈ ALLOWLIST -> Url.lower_all buffer = Str.chars e ->
  Url.host_parse idna buffer false = Some (Url.Domain (Str.chars e)).
Proof.
  intros He Hlow.
  assert (forallb Url.is_name_char buffer = true) as Hname.
  { rewrite <- name_chars_lower, Hlow.
    apply ALLOWLIST_entries in He as [-> | [-> | [-> | ->]]]; reflexivity. }
  unfold Url.host_parse.
  assert (Url.starts_with ["["%char] buffer = false) as ->.
  { destruct buffer as [|c b]; [reflexivity|].
    apply andb_true_iff in Hname as [Hc _].
    apply name_char_plain in Hc as (_ & Hc & _).
    cbn [Url.starts_with]. by rewrite Hc. }
  rewrite percent_decode_name_chars by assumption.
  unfold Url.domain_to_ASCII, Url.has_punycode_label.
  rewrite ascii_only_name_chars by assumption. rewrite Hlow.
  apply ALLOWLIST_entries in He as [-> | [-> | [-> | ->]]]; reflexivity.
Qed.

Lemma port_state_keeps (sch user pass : list ascii) (h : Url.Host)
      (buffer l : list ascii) (u : Url.URL) :
  Url.port_state sch user pass h buffer l = Some u ->
  Url.scheme u = sch /\ Url.host u = Some h.
Proof.
  revert buffer. induction l as [|c l IH]; intros buffer; simpl.
  - destruct (Url.is_empty buffer); [by intros [= <-]|].
    destruct (_ <? _)%N; [discriminate|]. by intros [= <-].
  - destruct (Url.is_digit c); [apply IH|].
    destruct (Url.ends_authority _ c); [|discriminate].
    destruct (Url.is_empty buffer); [by intros [= <-]|].
    destruct (_ <? _)%N; [discriminate|]. by intros [= <-].
Qed.

Lemma drive_letter_length (l : list ascii) :
  Url.is_windows_drive_letter l = true -> length l = 2%nat.
Proof. by destruct l as [|? [|? [|? ?]]]. Qed.

Lemma lower_all_length (l : list ascii) :
  length (Url.lower_all l) = length l.
Proof. apply length_map. Qed.

(** In a special URL, a host that is an allow-list name but for the case of
    its letters parses to that name. *)
Lemma parse_special_case_variant (idna : list ascii -> option (list ascii))
      (input : list ascii) (u : Url.URL) (e : string) :
  Url.basic_parse idna input = Some u ->
  Url.is_special (Url.scheme u) = true ->
  e ∈ ALLOWLIST ->
  Url.lower_all (Url.scanned_host (Url.scan_to_host input)) = Str.chars e ->
  Url.hostname u = e.
Proof.
  intros Hparse Hspecial He Hlow.
  assert (forall h, Url.host u = Some (Url.Domain (Str.chars e)) ->
                    h = Url.hostname u -> h = e) as Hdone.
  { intros h Hh ->. unfold Url.hostname. rewrite Hh. apply of_chars_chars. }
  assert (3 <= length (Url.scanned_host (Url.scan_to_host input)))%nat as Hlen.
  { rewrite <- lower_all_length, Hlow.
    apply ALLOWLIST_entries in He as [-> | [-> | [-> | ->]]]; simpl; lia. }
  unfold Url.basic_parse in Hparse.
  destruct (Url.scan_to_host input)
    as [[u0|sch user pass buffer colon l|sch buffer l]|];
    simpl in Hlow, Hlen; try (simpl in Hlen; lia); try discriminate Hparse.
  - (* host state *)
    unfold Url.host_state_end in Hparse.
    destruct (Url.is_special sch) eqn:Hsch; cbn [negb andb] in Hparse.
    + rewrite (host_parse_case_variant idna buffer e He Hlow) in Hparse.
      destruct buffer; [simpl in Hlen; lia|]. simpl in Hparse.
      destruct colon.
      * apply port_state_keeps in Hparse as (_ & Hh). by eapply Hdone.
      * injection Hparse as <-. by eapply Hdone.
    + exfalso.
      assert (Url.scheme u = sch) as Hu.
      { destruct colon.
        - destruct (Url.is_empty buffer); [discriminate|].
          destruct (Url.host_parse idna buffer true); [|discriminate].
          by apply port_state_keeps in Hparse as (? & _).
        - destruct (Url.host_parse idna buffer true); [|discriminate].
          by injection Hparse as <-. }
      congruence.
  - (* file host state *)
    unfold Url.file_host_state_end in Hparse.
    destruct (Url.is_windows_drive_letter buffer) eqn:Hdrive.
    { apply drive_letter_length in Hdrive. lia. }
    destruct buffer as [|c buffer]; [simpl in Hlen; lia|].
    cbn [Url.is_empty] in Hparse.
    rewrite (host_parse_case_variant idna _ e He Hlow) in Hparse.
    rewrite bool_decide_eq_false_2 in Hparse.
    + injection Hparse as <-. by eapply Hdone.
    + apply ALLOWLIST_entries in He as [-> | [-> | [-> | ->]]]; discriminate.
Qed.

(** C10, as the code has it. In a URL with a special scheme (http, https,
    ws, wss, ftp, file) the parser lowercases the host, so a host that
    differs from an allow-list entry only in the case of its ASCII letters
    passes the case-sensitive test against the all-lowercase list, and the
    handler calls fetch with the caller's string. *)
Theorem special_scheme_host_case_is_ignored
        (idna : list ascii -> option (list ascii))
        (fetch : string -> RedirectMode -> Js.Completion Upstream)
        (req : Request) (w : World) (s : string) (u : Url.URL) (e : string) :
  query_url req = Js.Str s ->
  Url.URL_new idna s = Js.Normal u ->
  Url.is_special (Url.scheme u) = true ->
  e ∈ ALLOWLIST ->
  Str.toLowerCase (Url.host_text s) = Str.toLowerCase e ->
  Url.hostname u = e
  /\ Str.includes ALLOWLIST (Url.hostname u) = true
  /\ (forall e', e' ∈ ALLOWLIST -> Str.toLowerCase e' = e')
  /\ exists w' rest,
       proxy Url.hostname (Url.URL_new idna) fetch req w = (Js.Normal tt, w')
       /\ calls w' = calls w ++ NewURL s :: Fetch s follow :: rest
       /\ fetches rest = [].
Proof.
  intros Hq Hu Hspecial He Hcase.
  assert (Url.hostname u = e) as Hhost.
  { unfold Url.URL_new in Hu.
    destruct (Url.basic_parse idna (Str.chars s)) as [u'|] eqn:Hparse;
      [|discriminate]. injection Hu as ->.
    eapply parse_special_case_variant; try eassumption.
    unfold Url.host_text in Hcase. rewrite toLowerCase_of_chars in Hcase.
    rewrite (ALLOWLIST_lowercase e He) in Hcase.
    by rewrite <- Hcase, chars_of_chars. }
  split; [assumption|]. rewrite Hhost.
  split; [by apply includes_elem_of|].
  split; [apply ALLOWLIST_lowercase|].
  destruct (allowed_is_fetched Url.hostname (Url.URL_new idna) fetch req w s u
              Hq (URL_new_nonempty _ _ _ Hu) Hu)
    as (w' & rest & Hrun & Hcalls & _ & Hno); [by rewrite Hhost|].
  eauto.
Qed.

(** ** What the copy loop keeps *)

(** X12. When the upstream answers and Node accepts its headers, the handler
    gives [res.status] the upstream status and [res.send] the upstream bytes,
    and every upstream header that is not stripped, whose name does not come
    again later in the iteration, and that [res.send] does not manage itself
    (Content-Type, Content-Length, ETag, Transfer-Encoding: Express rewrites
    or drops these when it sends) is on the response with its value. *)
Lemma relay_copies_last_of_each_name {URLobj : Type}
      (hostname : URLobj -> string)
      (URL_new : string -> Js.Completion URLobj)
      (fetch : string -> RedirectMode -> Js.Completion Upstream)
      (req : Request) (w : World) (s : string) (u : URLobj)
      (up : Upstream) (bytes : list Byte.byte) :
  query_url req = Js.Str s -> s <> "" -> URL_new s = Js.Normal u ->
  hostname u ∈ ALLOWLIST ->
  fetch s follow = Js.Normal up ->
  up_arrayBuffer up = Js.Normal bytes ->
  forallb acceptable (up_headers up) = true ->
  exists w',
    proxy hostname URL_new fetch req w = (Js.Normal tt, w')
    /\ statusCode (res w') = up_status up
    /\ sent (res w') = Some (Buffer bytes)
    /\ forall before key value after,
         up_headers up = before ++ (key, value) :: after ->
         Str.includes ["x-frame-options"; "content-security-policy"]
                      (Str.toLowerCase key) = false ->
         Str.includes send_managed (Str.toLowerCase key) = false ->
         (forall key' value', (key', value') ∈ after ->
                              Str.toLowerCase key' <> Str.toLowerCase key) ->
         getHeader (res w') key = Some value.
Proof.
  intros Hq Hs Hu Hh Hf Hb Hok. unfold proxy, try_catch.
  rewrite (try_allowed _ _ _ _ _ _ _ Hq Hs Hu Hh), Hf.
  unfold after_fetch, mbind, Handler_bind, Http.bind, lift.
  rewrite (forEach_copy_accepts _ _ Hok).
  match goal with
  | |- context [setHeader "X-Frame-Options" "" ?w1] =>
      pose proof (force_frame_headers w1) as Hforce
  end.
  unfold mbind, Handler_bind, Http.bind in Hforce.
  destruct (setHeader "X-Frame-Options" "" _) as [[[]|e1] w2];
    [|discriminate Hforce].
  rewrite Hforce, Hb. eexists. split; [reflexivity|]. simpl.
  split; [reflexivity|]. split; [reflexivity|].
  intros before key value after Hsplit Hkeep _ Hlast. unfold getHeader. simpl.
  rewrite forced_lookup_other by assumption.
  rewrite Hsplit. by rewrite copied_lookup_last.
Qed.

(** C2, at the input where the code parts from it. The upstream answers 200
    with a content type and two [Set-Cookie] headers. The relayed response
    has the status and the content type, but of the cookies it has only the
    second: [forEach] visits [set-cookie] once per value and [setHeader]
    replaces what the visit before stored, so "a=1", a header of the
    upstream response, reaches the caller under no name. *)
Theorem repeated_set_cookie_is_lost :
  let upstream := Scenario.two_cookies in
  let w' := (Scenario.run (Scenario.serving upstream)
                          (Scenario.request "https://badssl.com/")).2 in
  ("set-cookie", "a=1") ∈ up_headers upstream
  /\ statusCode (res w') = up_status upstream
  /\ sent (res w') = Some (Buffer Scenario.body_bytes)
  /\ getHeader (res w') "content-type" = Some "text/html"
  /\ getHeader (res w') "set-cookie" = Some "b=2"
  /\ forall name, getHeader (res w') name <> Some "a=1".
Proof.
  cbv zeta.
  assert (headers (res (Scenario.run (Scenario.serving Scenario.two_cookies)
                          (Scenario.request "https://badssl.com/")).2)
          = forced (<["set-cookie" := ("set-cookie", "b=2")]>
                      (<["content-type" := ("content-type", "text/html")]> ∅)))
    as Htable by (vm_compute; reflexivity).
  split; [right; left|]. split; [reflexivity|]. split; [reflexivity|].
  split; [reflexivity|]. split; [reflexivity|].
  intros name. unfold getHeader. rewrite Htable. unfold forced.
  generalize (Str.toLowerCase name). intros k.
  rewrite !lookup_insert, lookup_empty.
  repeat case_decide; discriminate.
Qed.

(** ** Evaluated cases *)

(** C5 fails as it is stated: [not-a-url] is a string and not a valid URL,
    and the answer is 500 "Proxy error", not a 400. *)
Lemma not_a_url_is_answered_500 :
  let w' := (Scenario.run Scenario.offline (Scenario.request "not-a-url")).2 in
  Scenario.URL_new "not-a-url" = Js.Throw (Js.mkError "TypeError" "Invalid URL")
  /\ statusCode (res w') = 500
  /\ statusCode (res w') <> 400
  /\ sent (res w') = Some (Text "Proxy error").
Proof. cbv zeta. split; [reflexivity|]. by vm_compute. Qed.

(** C9 fails as it is stated: [ftp://user:pw@badssl.com:8080/a/b?x=1#frag]
    has a listed hostname and passes the host check, but it is not fetched:
    fetch refuses the credentials (and would refuse the scheme) before any
    request, nothing of the page the network would serve is relayed, and the
    answer is 500 "Proxy error". *)
Lemma listed_host_is_not_always_fetched :
  let s := "ftp://user:pw@badssl.com:8080/a/b?x=1#frag" in
  let fetch := Fetch.fetch Scenario.no_unicode
                           (Scenario.serving Scenario.framed_page) in
  let w' := (Scenario.run fetch (Scenario.request s)).2 in
  (exists u, Scenario.URL_new s = Js.Normal u
             /\ Str.includes ALLOWLIST (Url.hostname u) = true
             /\ Fetch.includes_credentials u = true
             /\ Fetch.serves u = false)
  /\ (exists e, fetch s follow = Js.Throw e)
  /\ statusCode (res w') = 500
  /\ sent (res w') = Some (Text "Proxy error")
  /\ sent (res w') <> Some (Buffer Scenario.body_bytes).
Proof.
  cbv zeta.
  split; [eexists; split; [vm_compute; reflexivity|]; by vm_compute|].
  split; [eexists; vm_compute; reflexivity|].
  by vm_compute.
Qed.

(** C10 fails as it is stated: in [foo://BADSSL.COM/] the host differs from
    the entry badssl.com only in letter case, but [foo] is not a special
    scheme, the parser keeps the host as it is written, and the request is
    answered 403. *)
Lemma nonspecial_scheme_keeps_host_case :
  let s := "foo://BADSSL.COM/" in
  let w' := (Scenario.run (Scenario.serving Scenario.framed_page)
                          (Scenario.request s)).2 in
  "badssl.com" ∈ ALLOWLIST
  /\ Url.host_text s = "BADSSL.COM"
  /\ Str.toLowerCase (Url.host_text s) = Str.toLowerCase "badssl.com"
  /\ (exists u, Scenario.URL_new s = Js.Normal u
                /\ Url.hostname u = "BADSSL.COM"
                /\ Str.includes ALLOWLIST (Url.hostname u) = false)
  /\ statusCode (res w') = 403
  /\ sent (res w') = Some (Text "Domain not allowed")
  /\ fetches (calls w') = [].
Proof.
  cbv zeta. split; [apply includes_elem_of; reflexivity|].
  split; [reflexivity|]. split; [reflexivity|].
  split; [eexists; split; [reflexivity|]; split; reflexivity|].
  by vm_compute.
Qed.

(** ** The statements at work on concrete requests *)

(** A body that breaks off: 500, with the frame headers already forced. *)
Example broken_body_is_500 :
  let w' := (Scenario.run (Scenario.serving Scenario.broken_body)
                          (Scenario.request "https://badssl.com/")).2 in
  statusCode (res w') = 500
  /\ sent (res w') = Some (Text "Proxy error")
  /\ getHeader (res w') "content-security-policy"
     = Some "frame-ancestors 'self' *"
  /\ getHeader (res w') "x-frame-options" = Some "".
Proof. by vm_compute. Qed.

(** [GET /proxy?url=https://evil.example.com/] *)
Lemma foreign_host_is_403_witness :
  Scenario.run Scenario.offline (Scenario.request "https://evil.example.com/")
  = (Js.Normal tt,
     mkWorld (mkResponse 403 ∅ (Some (Text "Domain not allowed")))
             [NewURL "https://evil.example.com/"])
  /\ ALLOWLIST = [ "testphp.vulnweb.com"; "juice-shop.herokuapp.com";
                   "juice-shop.github.io"; "badssl.com" ].
Proof.
  eapply (foreign_host_is_403 Scenario.no_unicode Scenario.offline
            (Scenario.request "https://evil.example.com/") Scenario.fresh
            "https://evil.example.com/").
  - reflexivity.
  - reflexivity.
  - apply includes_not_elem_of. reflexivity.
Defined.

(** [GET /proxy] *)
Lemma missing_url_is_400_witness :
  Scenario.run Scenario.offline Scenario.no_query
  = (Js.Normal tt,
     mkWorld (mkResponse 400 ∅ (Some (Text "Missing url param"))) []).
Proof.
  apply (missing_url_is_400 Url.hostname Scenario.URL_new Scenario.offline
           Scenario.no_query Scenario.fresh).
  left. reflexivity.
Defined.

(** [GET /proxy?url=https://badssl.com/] against a page that forbids
    framing. *)
Lemma relay_forces_frame_headers_witness :
  let w' := (Scenario.run (Scenario.serving Scenario.framed_page)
                          (Scenario.request "https://badssl.com/")).2 in
  ("x-frame-options", "DENY") ∈ up_headers Scenario.framed_page
  /\ getHeader (res w') "X-Frame-Options" = Some ""
  /\ getHeader (res w') "Content-Security-Policy"
     = Some "frame-ancestors 'self' *".
Proof.
  cbv zeta.
  destruct (relay_forces_frame_headers Url.hostname Scenario.URL_new
              (Scenario.serving Scenario.framed_page)
              (Scenario.request "https://badssl.com/") Scenario.fresh
              (Scenario.run (Scenario.serving Scenario.framed_page)
                            (Scenario.request "https://badssl.com/")).2
              Scenario.body_bytes)
    as (_ & Hx & Hc & _).
  - vm_compute. reflexivity.
  - vm_compute. reflexivity.
  - split; [|split; assumption]. right. right. left.
Defined.

(** [GET /proxy] with [url] an IPv6 address whose bracket is never closed. *)
Lemma unparseable_url_is_500_witness :
  Scenario.run Scenario.offline (Scenario.request "http://[::1")
  = (Js.Normal tt,
     mkWorld (mkResponse 500 ∅ (Some (Text "Proxy error")))
             [ NewURL "http://[::1";
               ConsoleError (Js.mkError "TypeError" "Invalid URL") ]).
Proof.
  apply (unparseable_url_is_500 Scenario.no_unicode Scenario.offline
           (Scenario.request "http://[::1") Scenario.fresh "http://[::1").
  - reflexivity.
  - reflexivity.
Defined.

(** [GET /proxy?url=https://badssl.com/] with the network down. *)
Lemma exception_is_500_witness :
  Scenario.run Scenario.offline (Scenario.request "https://badssl.com/")
  = (Js.Normal tt,
     mkWorld (mkResponse 500 ∅ (Some (Text "Proxy error")))
             [ NewURL "https://badssl.com/"; Fetch "https://badssl.com/" follow;
               ConsoleError (Js.mkError "TypeError" "fetch failed") ]).
Proof.
  apply (exception_is_500 Url.hostname Scenario.URL_new Scenario.offline
           (Scenario.request "https://badssl.com/") Scenario.fresh
           (mkWorld (mkResponse 200 ∅ None)
                    [NewURL "https://badssl.com/";
                     Fetch "https://badssl.com/" follow])
           (Js.mkError "TypeError" "fetch failed")).
  vm_compute. reflexivity.
Defined.

(** [GET /proxy?url=https://badssl.com/]: the answer is the same when the
    redirect chain ends at evil.example.com. *)
Lemma redirects_are_not_revalidated_witness :
  up_url Scenario.redirected_page = "https://evil.example.com/"
  /\ Scenario.run (Scenario.serving Scenario.redirected_page)
                  (Scenario.request "https://badssl.com/")
     = Scenario.run (Scenario.serving Scenario.framed_page)
                    (Scenario.request "https://badssl.com/").
Proof.
  split; [reflexivity|].
  eapply (redirects_are_not_revalidated Url.hostname Scenario.URL_new
            (Scenario.serving Scenario.framed_page)
            (Scenario.request "https://badssl.com/") Scenario.fresh
            "https://badssl.com/").
  - reflexivity.
  - discriminate.
  - reflexivity.
  - apply includes_elem_of. reflexivity.
  - repeat split.
Defined.

(** [GET /proxy?url=https://evil.example.com/] on a response that already
    carries the CORS header. *)
Lemma rejection_has_no_effect_witness :
  let w := mkWorld (mkResponse 200
                      {[ "access-control-allow-origin" :=
                           ("Access-Control-Allow-Origin", "*") ]} None) [] in
  exists w',
    proxy Url.hostname Scenario.URL_new (Scenario.serving Scenario.framed_page)
          (Scenario.request "https://evil.example.com/") w = (Js.Normal tt, w')
    /\ statusCode (res w') = 403
    /\ headers (res w') = headers (res w)
    /\ fetches (calls w') = [].
Proof.
  cbv zeta.
  destruct (rejection_has_no_effect Url.hostname Scenario.URL_new
              (Scenario.serving Scenario.framed_page)
              (Scenario.request "https://evil.example.com/")
              (mkWorld (mkResponse 200
                          {[ "access-control-allow-origin" :=
                               ("Access-Control-Allow-Origin", "*") ]} None) []))
    as (w' & Hrun & Hstatus & Hheaders & _ & _ & Hfetch).
  - right. eexists "https://evil.example.com/", _.
    split; [reflexivity|]. split; [discriminate|]. split; [reflexivity|].
    apply includes_not_elem_of. reflexivity.
  - exists w'. split; [assumption|]. split; [|split; assumption].
    destruct Hstatus as [[_ Hty] | [H _]]; [|assumption].
    exfalso. apply Hty. reflexivity.
Defined.

(** [GET /proxy?url=ftp://user:pw@badssl.com:8080/a/b?x=1#frag] *)
Lemma host_check_reads_hostname_only_witness :
  let s := "ftp://user:pw@badssl.com:8080/a/b?x=1#frag" in
  let w'' := (Scenario.run (Fetch.fetch Scenario.no_unicode
                                        (Scenario.serving Scenario.framed_page))
                           (Scenario.request s)).2 in
  statusCode (res w'') = 500
  /\ sent (res w'') = Some (Text "Proxy error")
  /\ fetches (calls w'') = [(s, follow)].
Proof.
  cbv zeta.
  pose proof (host_check_reads_hostname_only Scenario.no_unicode Scenario.offline
                (Scenario.serving Scenario.framed_page)
                (Scenario.request "ftp://user:pw@badssl.com:8080/a/b?x=1#frag")
                Scenario.fresh "ftp://user:pw@badssl.com:8080/a/b?x=1#frag"
                (Str.chars "ftp") (Str.chars "user") (Str.chars "pw")
                (Some (Url.Domain (Str.chars "badssl.com"))) (Some 8080%N)
                (Str.chars "/a/b?x=1#frag")) as H.
  cbv zeta in H.
  destruct H as (_ & _ & _ & Hrefused).
  - reflexivity.
  - vm_compute. reflexivity.
  - destruct Hrefused as (e & _ & Hstatus & Hsent & Hcalls).
    + apply includes_elem_of. reflexivity.
    + left. reflexivity.
    + split; [exact Hstatus|]. split; [exact Hsent|].
      unfold Scenario.run, Scenario.URL_new. rewrite Hcalls. reflexivity.
Defined.

(** [GET /proxy?url=HTTPS://BADSSL.COM/] *)
Lemma special_scheme_host_case_is_ignored_witness :
  let s := "HTTPS://BADSSL.COM/" in
  Url.host_text s = "BADSSL.COM"
  /\ (exists u, Scenario.URL_new s = Js.Normal u /\ Url.hostname u = "badssl.com")
  /\ exists w' rest,
       Scenario.run Scenario.offline (Scenario.request s) = (Js.Normal tt, w')
       /\ calls w' = [] ++ NewURL s :: Fetch s follow :: rest.
Proof.
  cbv zeta. split; [reflexivity|].
  destruct (special_scheme_host_case_is_ignored Scenario.no_unicode
              Scenario.offline (Scenario.request "HTTPS://BADSSL.COM/")
              Scenario.fresh "HTTPS://BADSSL.COM/"
              (Url.mkURL (Str.chars "https") [] []
                         (Some (Url.Domain (Str.chars "badssl.com"))) None
                         (Str.chars "/"))
              "badssl.com")
    as (Hhost & _ & _ & w' & rest & Hrun & Hcalls & _).
  - reflexivity.
  - reflexivity.
  - reflexivity.
  - apply includes_elem_of. reflexivity.
  - reflexivity.
  - split; [eexists; split; [reflexivity | exact Hhost]|].
    exists w', rest. split; assumption.
Defined.

(** * More on the handler *)

(** ** The copy loop, whatever it meets *)

Lemma setHeader_normal (name value : string) (w w' : World) :
  setHeader name value w = (Js.Normal tt, w') ->
  acceptable (name, value) = true
  /\ w' = mkWorld (mkResponse (statusCode (res w))
                     (<[Str.toLowerCase name := (name, value)]> (headers (res w)))
                     (sent (res w)))
                  (calls w).
Proof.
  unfold setHeader, acceptable, throw, modify_res. simpl.
  destruct (valid_header_name name); [|discriminate].
  destruct (valid_header_value value); [|discriminate].
  simpl. by intros [= <-].
Qed.

Lemma setHeader_throws (name value : string) (w w' : World) (e : Js.Error) :
  setHeader name value w = (Js.Throw e, w') ->
  acceptable (name, value) = false /\ w' = w.
Proof.
  unfold setHeader, acceptable, throw, modify_res. simpl.
  destruct (valid_header_name name); simpl.
  - destruct (valid_header_value value); simpl; [discriminate|].
    by intros [= _ <-].
  - by intros [= _ <-].
Qed.

(** A loop that completes has written [copied]. *)
Lemma forEach_copy_normal (hs : list (string * string)) (w w' : World) :
  forEach hs copy_header w = (Js.Normal tt, w') ->
  headers (res w') = copied hs (headers (res w)).
Proof.
  revert w. induction hs as [|[key value] hs IH]; intros w; simpl.
  - by intros [= <-].
  - unfold Http.bind, copy_header.
    destruct (Str.includes _ (Str.toLowerCase key)).
    + simpl. apply IH.
    + destruct (setHeader key value w) as [[[]|e] w1] eqn:Hset; [|discriminate].
      apply setHeader_normal in Hset as (_ & ->).
      intros H. apply IH in H. exact H.
Qed.

(** However the loop ends, it has written neither frame header. *)
Lemma forEach_copy_spares_frame_headers (hs : list (string * string))
      (w w' : World) (c : Js.Completion unit) (k : string) :
  Str.includes ["x-frame-options"; "content-security-policy"] k = true ->
  forEach hs copy_header w = (c, w') ->
  headers (res w') !! k = headers (res w) !! k.
Proof.
  intros Hk. revert w. induction hs as [|[key value] hs IH]; intros w; simpl.
  - by intros [= _ <-].
  - unfold Http.bind, copy_header.
    destruct (Str.includes _ (Str.toLowerCase key)) eqn:Hkey.
    + simpl. apply IH.
    + destruct (setHeader key value w) as [[[]|e] w1] eqn:Hset.
      * apply setHeader_normal in Hset as (_ & ->).
        intros H. apply IH in H. rewrite H. simpl.
        apply lookup_insert_ne. intros Heq. congruence.
      * apply setHeader_throws in Hset as (_ & ->). by intros [= _ <-].
Qed.

(** The loop stops at the first header Node refuses: the ones before it are
    written, the ones after it are not looked at. *)
Lemma forEach_copy_refuses (before after : list (string * string))
      (key value : string) (w : World) :
  forallb acceptable before = true ->
  Str.includes ["x-frame-options"; "content-security-policy"]
               (Str.toLowerCase key) = false ->
  acceptable (key, value) = false ->
  exists e,
    forEach (before ++ (key, value) :: after) copy_header w
    = (Js.Throw e,
       mkWorld (mkResponse (statusCode (res w)) (copied before (headers (res w)))
                           (sent (res w)))
               (calls w)).
Proof.
  revert w. induction before as [|[k v] before IH]; intros w Hok Hkeep Hbad.
  - simpl. unfold Http.bind, copy_header. rewrite Hkeep.
    destruct (setHeader key value w) as [[[]|e] w1] eqn:Hset.
    + apply setHeader_normal in Hset as (Hacc & _). congruence.
    + apply setHeader_throws in Hset as (_ & ->). exists e.
      by destruct w as [[] ?].
  - simpl in Hok. apply andb_true_iff in Hok as [Hkv Hok].
    rewrite <- app_comm_cons. cbn [forEach copied].
    unfold Http.bind at 1, copy_header at 1.
    destruct (Str.includes _ (Str.toLowerCase k)).
    + destruct (IH w Hok Hkeep Hbad) as (e & He). exists e.
      cbn [mret Handler_ret Http.ret]. exact He.
    + rewrite setHeader_accepts by assumption.
      destruct (IH (mkWorld (mkResponse (statusCode (res w))
                               (<[Str.toLowerCase k := (k, v)]> (headers (res w)))
                               (sent (res w))) (calls w)) Hok Hkeep Hbad)
        as (e & He).
      exists e. exact He.
Qed.

Lemma guard_true_iff (v : Js.Value) :
  negb (Js.truthy v) || negb (String.eqb (Js.typeof v) "string") = true
  <-> Js.typeof v <> "string" \/ v = Js.Str "".
Proof.
  split.
  - destruct v as [|s| |]; simpl; try (intros _; left; discriminate).
    destruct (String.eqb_spec s ""); [intros _; right; congruence|discriminate].
  - intros [H| ->]; [by apply guard_not_string|reflexivity].
Qed.

Lemma forced_frame_entry (table : gmap string (string * string)) (k : string) :
  Str.includes ["x-frame-options"; "content-security-policy"] k = true ->
  snd <$> forced table !! k
  = Some (if String.eqb k "x-frame-options" then ""
          else "frame-ancestors 'self' *").
Proof.
  intros Hk. apply includes_elem_of in Hk.
  apply elem_of_cons in Hk as [-> | Hk];
    [by rewrite forced_x_frame_options|].
  apply elem_of_cons in Hk as [-> | Hk];
    [by rewrite forced_content_security_policy | inversion Hk].
Qed.

(** From the fetch on, a frame header is what it was or what is forced. *)
Lemma after_fetch_frame_entries (settled : Js.Completion Upstream)
      (w w' : World) (c : Js.Completion unit) (k : string) :
  Str.includes ["x-frame-options"; "content-security-policy"] k = true ->
  after_fetch settled w = (c, w') ->
  headers (res w') !! k = headers (res w) !! k
  \/ headers (res w') !! k = forced ∅ !! k.
Proof.
  intros Hk. destruct settled as [up|e]; [|intros [= _ <-]; by left].
  unfold after_fetch, mbind, Handler_bind, Http.bind, lift.
  destruct (forEach (up_headers up) copy_header w) as [[[]|e] w1] eqn:Hcopy;
    pose proof (forEach_copy_spares_frame_headers _ _ _ _ k Hk Hcopy) as Hspare.
  2:{ intros [= _ <-]. by left. }
  pose proof (force_frame_headers w1) as Hforce.
  unfold mbind, Handler_bind, Http.bind in Hforce.
  destruct (setHeader "X-Frame-Options" "" w1) as [[[]|e1] w2];
    [|discriminate Hforce].
  rewrite Hforce. clear Hforce.
  assert (forall t, forced t !! k = forced ∅ !! k) as Hconst.
  { intros t. apply includes_elem_of in Hk.
    apply elem_of_cons in Hk as [-> | Hk];
      [by rewrite !forced_x_frame_options|].
    apply elem_of_cons in Hk as [-> | Hk];
      [by rewrite !forced_content_security_policy | inversion Hk]. }
  destruct (up_arrayBuffer up) as [bytes|e]; intros [= _ <-]; simpl;
    right; apply Hconst.
Qed.

Section More.
Context {URLobj : Type}.
Variable hostname : URLobj -> string.
Variable URL_new : string -> Js.Completion URLobj.
Variable fetch : string -> RedirectMode -> Js.Completion Upstream.

Local Abbreviation proxy := (proxy hostname URL_new fetch).
Local Abbreviation proxy_try := (proxy_try hostname URL_new fetch).

(** What a run adds to the calls, with what is known when it does. *)
Lemma proxy_calls (req : Request) (w : World) :
  exists cs,
    calls (proxy req w).2 = calls w ++ cs
    /\ (cs = []
        \/ (exists s, query_url req = Js.Str s /\ s <> ""
                      /\ (cs = [NewURL s]
                          \/ exists e, cs = [NewURL s; ConsoleError e]))
        \/ (exists s u, query_url req = Js.Str s /\ s <> ""
                        /\ URL_new s = Js.Normal u /\ hostname u ∈ ALLOWLIST
                        /\ (cs = [NewURL s; Fetch s follow]
                            \/ exists e,
                                cs = [NewURL s; Fetch s follow; ConsoleError e]))).
Proof.
  pose proof (proxy_try_outcome hostname URL_new fetch req w) as Hout.
  unfold Proxy.proxy, try_catch.
  destruct (proxy_try req w) as [[[]|e] w1]; simpl in Hout; inversion Hout; subst;
    simpl.
  - exists []. split; [reflexivity|]. by left.
  - exists [NewURL s]. split; [reflexivity|]. right. left. eauto 10.
  - exists [NewURL s; Fetch s follow]. split; [reflexivity|]. right. right.
    eauto 10.
  - exists [NewURL s; ConsoleError e]. split; [by rewrite <- app_assoc|].
    right. left. eauto 10.
  - exists [NewURL s; Fetch s follow; ConsoleError e].
    split.
    { match goal with H : calls w1 = _ |- _ => rewrite H end.
      by rewrite <- app_assoc. }
    right. right. eauto 10.
Qed.

(** X1. Whatever the request, a run calls the [URL] constructor at most
    once, [fetch] at most once and [console.error] at most once, in that
    order; what is parsed and what is fetched is the [url] parameter itself,
    character for character, and the fetch is made in [follow] mode. *)
Theorem calls_of_a_run (req : Request) (w : World) :
  exists cs,
    calls (proxy req w).2 = calls w ++ cs
    /\ (cs = []
        \/ exists s,
            query_url req = Js.Str s
            /\ (cs = [NewURL s]
                \/ (exists e, cs = [NewURL s; ConsoleError e])
                \/ cs = [NewURL s; Fetch s follow]
                \/ (exists e, cs = [NewURL s; Fetch s follow; ConsoleError e]))).
Proof.
  destruct (proxy_calls req w) as (cs & Hcalls & Hshape).
  exists cs. split; [assumption|].
  destruct Hshape as [-> | [(s & Hq & _ & Hcs) | (s & u & Hq & _ & _ & _ & Hcs)]];
    [by left | right; exists s; split; [assumption|] ..].
  - destruct Hcs as [-> | (e & ->)]; eauto.
  - destruct Hcs as [-> | (e & ->)]; eauto 6.
Qed.

(** X2. The handler fetches nothing but what passed the host check: if a run
    calls [fetch], the input is the [url] parameter, the [URL] constructor
    accepted it, and the hostname of what it returned is on the list. *)
Theorem fetch_is_allowlisted (req : Request) (w : World) (cs : list Call)
        (input : string) (mode : RedirectMode) :
  calls (proxy req w).2 = calls w ++ cs ->
  (input, mode) ∈ fetches cs ->
  mode = follow
  /\ query_url req = Js.Str input
  /\ exists u, URL_new input = Js.Normal u /\ hostname u ∈ ALLOWLIST.
Proof.
  intros Hcalls Hin.
  destruct (proxy_calls req w) as (cs' & Hcalls' & Hshape).
  rewrite Hcalls in Hcalls'. apply app_inv_head in Hcalls'. subst cs'.
  destruct Hshape as [-> | [(s & Hq & _ & Hcs) | (s & u & Hq & _ & Hu & Hh & Hcs)]].
  - inversion Hin.
  - destruct Hcs as [-> | (e & ->)]; inversion Hin.
  - assert ((input, mode) = (s, follow)) as [= -> ->].
    { destruct Hcs as [-> | (e & ->)]; simpl in Hin;
        apply list_elem_of_singleton in Hin; assumption. }
    eauto.
Qed.

(** X3. The handler answers in one of four ways only. Whenever the promises
    it awaits settle ([fetch] and the body read: the source awaits both with
    no timeout, and a promise that never settles has no outcome here, so a
    request left hanging is outside this statement), what it gives
    [res.status] and [res.send] is one of four pairs: 400 "Missing url
    param", 403 "Domain not allowed", 500 "Proxy error", or the status and
    the bytes of what [fetch] resolved to. *)
Theorem answer_forms (req : Request) (w : World) :
  let r := res (proxy req w).2 in
  (statusCode r = 400 /\ sent r = Some (Text "Missing url param"))
  \/ (statusCode r = 403 /\ sent r = Some (Text "Domain not allowed"))
  \/ (statusCode r = 500 /\ sent r = Some (Text "Proxy error"))
  \/ (exists s up bytes,
        fetch s follow = Js.Normal up /\ up_arrayBuffer up = Js.Normal bytes
        /\ statusCode r = up_status up /\ sent r = Some (Buffer bytes)).
Proof.
  cbv zeta.
  pose proof (proxy_try_outcome hostname URL_new fetch req w) as Hout.
  unfold Proxy.proxy, try_catch.
  destruct (proxy_try req w) as [[[]|e] w1]; simpl in Hout; inversion Hout; subst;
    simpl; eauto 10.
Qed.

(** X4. The 400 answer is given exactly when [url] is absent, is not a
    string, or is the empty string. *)
Theorem missing_param_answer_iff (req : Request) (w : World) :
  sent (res (proxy req w).2) = Some (Text "Missing url param")
  <-> Js.typeof (query_url req) <> "string" \/ query_url req = Js.Str "".
Proof.
  rewrite <- guard_true_iff. split.
  - pose proof (proxy_try_outcome hostname URL_new fetch req w) as Hout.
    unfold Proxy.proxy, try_catch.
    destruct (proxy_try req w) as [[[]|e] w1]; simpl in Hout; inversion Hout;
      subst; simpl; try discriminate. by intros _.
  - intros H. unfold Proxy.proxy, try_catch. by rewrite try_missing.
Qed.

(** X5. The 403 answer is given exactly when [url] is a non-empty string
    that the [URL] constructor accepts and whose hostname is not on the
    list. *)
Theorem forbidden_answer_iff (req : Request) (w : World) :
  sent (res (proxy req w).2) = Some (Text "Domain not allowed")
  <-> exists s u, query_url req = Js.Str s /\ s <> ""
                  /\ URL_new s = Js.Normal u /\ hostname u ∉ ALLOWLIST.
Proof.
  split.
  - pose proof (proxy_try_outcome hostname URL_new fetch req w) as Hout.
    unfold Proxy.proxy, try_catch.
    destruct (proxy_try req w) as [[[]|e] w1]; simpl in Hout; inversion Hout;
      subst; simpl; try discriminate. intros _. eauto 10.
  - intros (s & u & Hq & Hs & Hu & Hh). unfold Proxy.proxy, try_catch.
    by erewrite try_forbidden.
Qed.

(** X6. A relay leaves alone every header that was already on the response,
    unless the upstream sent a header of that name or it is one of the two
    forced ones. *)
Theorem relay_keeps_other_headers (req : Request) (w : World)
        (bytes : list Byte.byte) :
  sent (res (proxy req w).2) = Some (Buffer bytes) ->
  exists s up,
    fetch s follow = Js.Normal up
    /\ forall name,
         Str.includes ["x-frame-options"; "content-security-policy"]
                      (Str.toLowerCase name) = false ->
         (forall key value, (key, value) ∈ up_headers up ->
                            Str.toLowerCase key <> Str.toLowerCase name) ->
         getHeader (res (proxy req w).2) name = getHeader (res w) name.
Proof.
  pose proof (proxy_try_outcome hostname URL_new fetch req w) as Hout.
  unfold Proxy.proxy, try_catch.
  destruct (proxy_try req w) as [[[]|e] w1]; simpl in Hout; inversion Hout;
    subst; simpl; try discriminate.
  intros _. exists s, up. split; [assumption|].
  intros name Hkeep Hother. unfold getHeader. simpl.
  rewrite forced_lookup_other by assumption.
  match goal with H : forEach _ _ _ = _ |- _ =>
    apply forEach_copy_normal in H; simpl in H; rewrite H end.
  by rewrite copied_lookup_other.
Qed.

(** X7. On no path does a frame header of the upstream reach the response:
    after any run, [X-Frame-Options] and [Content-Security-Policy], under any
    spelling, are what they were before the run or the forced values. *)
Theorem upstream_frame_headers_never_relayed (req : Request) (w : World)
        (name : string) :
  Str.includes ["x-frame-options"; "content-security-policy"]
               (Str.toLowerCase name) = true ->
  getHeader (res (proxy req w).2) name = getHeader (res w) name
  \/ getHeader (res (proxy req w).2) name
     = Some (if String.eqb (Str.toLowerCase name) "x-frame-options" then ""
             else "frame-ancestors 'self' *").
Proof.
  intros Hk. unfold getHeader.
  assert (forall (c : Js.Completion unit) w1,
             proxy_try req w = (c, w1) ->
             headers (res w1) !! Str.toLowerCase name
             = headers (res w) !! Str.toLowerCase name
             \/ headers (res w1) !! Str.toLowerCase name
                = forced ∅ !! Str.toLowerCase name) as Htry.
  { intros c w1.
    destruct (negb (Js.truthy (query_url req))
              || negb (String.eqb (Js.typeof (query_url req)) "string"))
      eqn:Hguard.
    { rewrite try_missing by assumption. intros [= _ <-]. by left. }
    apply guard_false in Hguard as (s & Hq & Hs).
    destruct (URL_new s) as [u|e] eqn:Hu.
    2:{ erewrite try_bad_url by eassumption. intros [= _ <-]. by left. }
    destruct (decide (hostname u ∈ ALLOWLIST)) as [Hin|Hout].
    2:{ erewrite try_forbidden by eassumption. intros [= _ <-]. by left. }
    erewrite try_allowed by eassumption. intros Hafter.
    by apply (after_fetch_frame_entries _ _ _ _ _ Hk) in Hafter. }
  unfold Proxy.proxy, try_catch.
  destruct (proxy_try req w) as [c w1] eqn:Hrun.
  specialize (Htry c w1 eq_refl).
  assert (headers (res (match c with
                        | Js.Normal a => (Js.Normal a, w1)
                        | Js.Throw e => proxy_catch e w1
                        end).2) = headers (res w1)) as ->.
  { by destruct c. }
  destruct Htry as [-> | ->]; [by left|right].
  by apply forced_frame_entry.
Qed.

End More.

(** ** After the fetch has been made *)

Section Failures.
Context {URLobj : Type}.
Variable hostname : URLobj -> string.
Variable URL_new : string -> Js.Completion URLobj.
Variable fetch : string -> RedirectMode -> Js.Completion Upstream.

Local Abbreviation proxy := (proxy hostname URL_new fetch).

(** X8. When the fetch itself is rejected, the handler answers with
    [res.status(500).send('Proxy error')] and has written no header: nothing
    was copied and the frame headers were not forced, so every header that
    [res.send] does not manage itself (it writes Content-Type, Content-Length
    and ETag for the text) is as it was before the request was handled; the
    error logged is the one [fetch] gave. *)
Theorem fetch_failure_leaves_headers (req : Request) (w : World) (s : string)
        (u : URLobj) (e : Js.Error) :
  query_url req = Js.Str s -> s <> "" -> URL_new s = Js.Normal u ->
  hostname u ∈ ALLOWLIST ->
  fetch s follow = Js.Throw e ->
  exists w',
    proxy req w = (Js.Normal tt, w')
    /\ statusCode (res w') = 500
    /\ sent (res w') = Some (Text "Proxy error")
    /\ calls w' = calls w ++ [NewURL s; Fetch s follow; ConsoleError e]
    /\ forall name,
         Str.includes send_managed (Str.toLowerCase name) = false ->
         getHeader (res w') name = getHeader (res w) name.
Proof.
  intros Hq Hs Hu Hh Hf.
  erewrite catch_answers by (by eapply try_fetch_rejects).
  eexists. split; [reflexivity|]. unfold answered. simpl.
  split; [reflexivity|]. split; [reflexivity|].
  split; [by rewrite <- app_assoc|]. reflexivity.
Qed.

(** X9. When the body cannot be read, the handler answers with
    [res.status(500).send('Proxy error')], but what it wrote before the read
    stays on the response: the two forced frame headers, and every upstream
    header that is not stripped, is the last of its name, and is not one
    that [res.send] manages itself (Content-Type, Content-Length, ETag,
    Transfer-Encoding: Express rewrites these for the text it sends). *)
Theorem body_failure_keeps_written_headers (req : Request) (w : World)
        (s : string) (u : URLobj) (up : Upstream) (e : Js.Error) :
  query_url req = Js.Str s -> s <> "" -> URL_new s = Js.Normal u ->
  hostname u ∈ ALLOWLIST ->
  fetch s follow = Js.Normal up ->
  forallb acceptable (up_headers up) = true ->
  up_arrayBuffer up = Js.Throw e ->
  exists w',
    proxy req w = (Js.Normal tt, w')
    /\ statusCode (res w') = 500
    /\ sent (res w') = Some (Text "Proxy error")
    /\ calls w' = calls w ++ [NewURL s; Fetch s follow; ConsoleError e]
    /\ getHeader (res w') "X-Frame-Options" = Some ""
    /\ getHeader (res w') "Content-Security-Policy"
       = Some "frame-ancestors 'self' *"
    /\ forall before key value after,
         up_headers up = before ++ (key, value) :: after ->
         Str.includes ["x-frame-options"; "content-security-policy"]
                      (Str.toLowerCase key) = false ->
         Str.includes send_managed (Str.toLowerCase key) = false ->
         (forall key' value', (key', value') ∈ after ->
                              Str.toLowerCase key' <> Str.toLowerCase key) ->
         getHeader (res w') key = Some value.
Proof.
  intros Hq Hs Hu Hh Hf Hok Hb.
  erewrite catch_answers by (by eapply try_body_rejects).
  eexists. split; [reflexivity|]. unfold answered, getHeader. simpl.
  split; [reflexivity|]. split; [reflexivity|].
  split; [by rewrite <- app_assoc|].
  split; [by rewrite forced_x_frame_options|].
  split; [by rewrite forced_content_security_policy|].
  intros before key value after Hsplit Hkeep _ Hlast.
  rewrite forced_lookup_other by assumption.
  rewrite Hsplit. by rewrite copied_lookup_last.
Qed.

End Failures.

(** ** Addresses that are let through *)

Lemma chars_append (a b : string) :
  Str.chars (a +:+ b) = Str.chars a ++ Str.chars b.
Proof.
  induction a as [|c a IH]; [reflexivity|].
  change (String c a +:+ b) with (String c (a +:+ b)).
  unfold Str.chars in *. simpl. by rewrite IH.
Qed.

Lemma strip_leading_app (a b : list ascii) (c : ascii) :
  Url.is_c0_control_or_space c = false ->
  Url.strip_leading (a ++ c :: b) = Url.strip_leading a ++ c :: b.
Proof.
  intros Hc. induction a as [|x a IH]; simpl.
  - by rewrite Hc.
  - destruct (Url.is_c0_control_or_space x); [exact IH | reflexivity].
Qed.

Lemma not_space_not_tab (c : ascii) :
  Url.is_c0_control_or_space c = false -> Url.is_tab_or_newline c = false.
Proof. each_ascii c; intros H; try discriminate H; reflexivity. Qed.

(** The clean-up leaves a prefix with no blank or control character in it
    as it is. *)
Lemma preprocess_prefix (pre p : list ascii) (c : ascii) :
  forallb (fun x => negb (Url.is_c0_control_or_space x)) (pre ++ [c]) = true ->
  Url.preprocess (pre ++ c :: p) = pre ++ c :: Url.cleaned_tail p.
Proof.
  intros Hpre. rewrite forallb_app in Hpre. simpl in Hpre.
  apply andb_true_iff in Hpre as [Hpre Hc].
  rewrite andb_true_r in Hc. apply negb_true_iff in Hc.
  assert (List.filter (fun c => negb (Url.is_tab_or_newline c)) pre = pre)
    as Hfilter.
  { clear -Hpre. induction pre as [|x pre IH]; [reflexivity|].
    simpl in Hpre. apply andb_true_iff in Hpre as [Hx Hpre].
    apply negb_true_iff, not_space_not_tab in Hx. simpl. rewrite Hx. simpl.
    by rewrite IH. }
  assert (Url.strip_leading (pre ++ c :: p) = pre ++ c :: p) as Hlead.
  { destruct pre as [|x pre]; simpl.
    - by rewrite Hc.
    - simpl in Hpre. apply andb_true_iff in Hpre as [Hx _].
      apply negb_true_iff in Hx. by rewrite Hx. }
  unfold Url.preprocess, Url.cleaned_tail. rewrite Hlead.
  rewrite rev_app_distr. simpl. rewrite <- app_assoc. simpl.
  rewrite strip_leading_app by assumption.
  rewrite rev_app_distr. simpl. rewrite rev_involutive, <- app_assoc. simpl.
  rewrite List.filter_app, Hfilter. simpl.
  by rewrite (not_space_not_tab c Hc).
Qed.

Lemma http_url_parses (idna : list ascii -> option (list ascii))
      (scheme e rest : string) :
  scheme = "http" \/ scheme = "https" ->
  e ∈ ALLOWLIST ->
  rest = ""
  \/ (exists c rest', rest = String c rest'
                      /\ (c = "/"%char \/ c = "?"%char \/ c = "#"%char)) ->
  exists u, Url.URL_new idna ((scheme +:+ "://" +:+ e) +:+ rest) = Js.Normal u
            /\ Url.hostname u = e
            /\ Url.scheme u = Str.chars scheme.
Proof.
  intros Hscheme He Hrest.
  unfold Url.URL_new, Url.basic_parse, Url.scan_to_host.
  rewrite chars_append.
  apply ALLOWLIST_entries in He.
  destruct Hrest as [-> | (c & rest' & -> & Hc)].
  - destruct Hscheme as [-> | ->];
      destruct He as [-> | [-> | [-> | ->]]];
      (eexists; split; [vm_compute; reflexivity|];
       split; vm_compute; reflexivity).
  - change (Str.chars (String c rest')) with (c :: Str.chars rest').
    destruct Hscheme as [-> | ->];
      destruct He as [-> | [-> | [-> | ->]]];
      destruct Hc as [-> | [-> | ->]];
      (rewrite preprocess_prefix by (vm_compute; reflexivity);
       generalize (Url.cleaned_tail (Str.chars rest')); intros tail;
       eexists; split; [vm_compute; reflexivity|];
       split; vm_compute; reflexivity).
Qed.

(** X10. An http or https address on a listed host is always let through:
    for every entry of the list, with nothing after the host or with any
    path, query or fragment after it, the [URL] constructor accepts the
    string, the hostname is the entry, and the string is fetched as it
    stands. *)
Theorem listed_http_url_is_fetched (idna : list ascii -> option (list ascii))
        (fetch : string -> RedirectMode -> Js.Completion Upstream)
        (req : Request) (w : World) (scheme e rest : string) :
  scheme = "http" \/ scheme = "https" ->
  e ∈ ALLOWLIST ->
  rest = ""
  \/ (exists c rest', rest = String c rest'
                      /\ (c = "/"%char \/ c = "?"%char \/ c = "#"%char)) ->
  query_url req = Js.Str ((scheme +:+ "://" +:+ e) +:+ rest) ->
  let s := (scheme +:+ "://" +:+ e) +:+ rest in
  (exists u, Url.URL_new idna s = Js.Normal u /\ Url.hostname u = e)
  /\ exists w' more,
       proxy Url.hostname (Url.URL_new idna) fetch req w = (Js.Normal tt, w')
       /\ calls w' = calls w ++ NewURL s :: Fetch s follow :: more
       /\ fetches more = [].
Proof.
  intros Hscheme He Hrest Hq s.
  destruct (http_url_parses idna scheme e rest Hscheme He Hrest)
    as (u & Hu & Hhost & _).
  split; [eauto|].
  destruct (allowed_is_fetched Url.hostname (Url.URL_new idna) fetch req w s u
              Hq (URL_new_nonempty _ _ _ Hu) Hu)
    as (w' & more & Hrun & Hcalls & _ & Hno); [by rewrite Hhost|].
  eauto.
Qed.

(** ** These at work on concrete requests *)

Lemma fetch_is_allowlisted_witness :
  exists u, Scenario.URL_new "https://badssl.com/" = Js.Normal u
            /\ Url.hostname u ∈ ALLOWLIST.
Proof.
  destruct (fetch_is_allowlisted Url.hostname Scenario.URL_new
              (Scenario.serving Scenario.framed_page)
              (Scenario.request "https://badssl.com/") Scenario.fresh
              [NewURL "https://badssl.com/"; Fetch "https://badssl.com/" follow]
              "https://badssl.com/" follow)
    as (_ & _ & Hu).
  - vm_compute. reflexivity.
  - simpl. left.
  - exact Hu.
Defined.

(** [GET /proxy?url=] *)
Lemma missing_param_answer_iff_witness :
  sent (res (Scenario.run Scenario.offline (Scenario.request "")).2)
  = Some (Text "Missing url param").
Proof.
  apply (proj2 (missing_param_answer_iff Url.hostname Scenario.URL_new
                  Scenario.offline (Scenario.request "") Scenario.fresh)).
  right. reflexivity.
Defined.

(** [GET /proxy?url=https://badssl.com.evil.example/] *)
Lemma forbidden_answer_iff_witness :
  sent (res (Scenario.run Scenario.offline
                          (Scenario.request "https://badssl.com.evil.example/")).2)
  = Some (Text "Domain not allowed").
Proof.
  apply (proj2 (forbidden_answer_iff Url.hostname Scenario.URL_new
                  Scenario.offline
                  (Scenario.request "https://badssl.com.evil.example/")
                  Scenario.fresh)).
  eexists "https://badssl.com.evil.example/", _.
  split; [reflexivity|]. split; [discriminate|]. split; [reflexivity|].
  apply includes_not_elem_of. reflexivity.
Defined.

Lemma relay_keeps_other_headers_witness :
  getHeader
    (res (proxy Url.hostname Scenario.URL_new
                (Scenario.serving Scenario.framed_page)
                (Scenario.request "https://badssl.com/") Scenario.with_cors).2)
    "Access-Control-Allow-Origin"
  = Some "*".
Proof.
  destruct (relay_keeps_other_headers Url.hostname Scenario.URL_new
              (Scenario.serving Scenario.framed_page)
              (Scenario.request "https://badssl.com/") Scenario.with_cors
              Scenario.body_bytes)
    as (s & up & Hup & Hkeep).
  - vm_compute. reflexivity.
  - injection Hup as <-. rewrite Hkeep; [reflexivity | reflexivity |].
    intros key value Hin.
    repeat (apply elem_of_cons in Hin as [[= -> ->] | Hin]; [discriminate|]).
    inversion Hin.
Defined.

Lemma upstream_frame_headers_never_relayed_witness :
  ("x-frame-options", "DENY") ∈ up_headers Scenario.framed_page
  /\ getHeader
       (res (Scenario.run (Scenario.serving Scenario.framed_page)
                          (Scenario.request "https://badssl.com/")).2)
       "X-FRAME-OPTIONS"
     = Some "".
Proof.
  split; [right; right; left|].
  destruct (upstream_frame_headers_never_relayed Url.hostname Scenario.URL_new
              (Scenario.serving Scenario.framed_page)
              (Scenario.request "https://badssl.com/") Scenario.fresh
              "X-FRAME-OPTIONS") as [H | H].
  - reflexivity.
  - vm_compute. reflexivity.
  - exact H.
Defined.

Lemma fetch_failure_leaves_headers_witness :
  exists w',
    proxy Url.hostname Scenario.URL_new Scenario.offline
          (Scenario.request "https://badssl.com/") Scenario.with_cors
    = (Js.Normal tt, w')
    /\ statusCode (res w') = 500
    /\ getHeader (res w') "Access-Control-Allow-Origin" = Some "*"
    /\ getHeader (res w') "X-Frame-Options" = None.
Proof.
  destruct (fetch_failure_leaves_headers Url.hostname Scenario.URL_new
              Scenario.offline (Scenario.request "https://badssl.com/")
              Scenario.with_cors "https://badssl.com/"
              (Url.mkURL (Str.chars "https") [] []
                         (Some (Url.Domain (Str.chars "badssl.com"))) None
                         (Str.chars "/"))
              (Js.mkError "TypeError" "fetch failed"))
    as (w' & Hrun & Hstatus & _ & _ & Hsame).
  - reflexivity.
  - discriminate.
  - reflexivity.
  - apply includes_elem_of. reflexivity.
  - reflexivity.
  - exists w'. split; [exact Hrun|]. split; [exact Hstatus|].
    split; rewrite Hsame; reflexivity.
Defined.

Lemma body_failure_keeps_written_headers_witness :
  exists w',
    Scenario.run (Scenario.serving Scenario.cut_short)
                 (Scenario.request "https://badssl.com/") = (Js.Normal tt, w')
    /\ statusCode (res w') = 500
    /\ getHeader (res w') "X-Frame-Options" = Some ""
    /\ getHeader (res w') "cache-control" = Some "no-store".
Proof.
  destruct (body_failure_keeps_written_headers Url.hostname Scenario.URL_new
              (Scenario.serving Scenario.cut_short)
              (Scenario.request "https://badssl.com/") Scenario.fresh
              "https://badssl.com/"
              (Url.mkURL (Str.chars "https") [] []
                         (Some (Url.Domain (Str.chars "badssl.com"))) None
                         (Str.chars "/"))
              Scenario.cut_short (Js.mkError "TypeError" "terminated"))
    as (w' & Hrun & Hstatus & _ & _ & Hx & _ & Hall).
  - reflexivity.
  - discriminate.
  - reflexivity.
  - apply includes_elem_of. reflexivity.
  - reflexivity.
  - reflexivity.
  - reflexivity.
  - exists w'. split; [exact Hrun|]. split; [exact Hstatus|].
    split; [exact Hx|].
    apply (Hall [] "cache-control" "no-store" [("content-type", "text/html")]);
      [reflexivity | reflexivity | reflexivity |].
    intros key' value' Hin. apply list_elem_of_singleton in Hin.
    injection Hin as -> ->. discriminate.
Defined.

(** [GET /proxy?url=https://juice-shop.herokuapp.com/#/login] *)
Lemma listed_http_url_is_fetched_witness :
  let s := "https://juice-shop.herokuapp.com/#/login" in
  exists w' more,
    Scenario.run Scenario.offline (Scenario.request s) = (Js.Normal tt, w')
    /\ calls w' = [] ++ NewURL s :: Fetch s follow :: more.
Proof.
  cbv zeta.
  destruct (listed_http_url_is_fetched Scenario.no_unicode Scenario.offline
              (Scenario.request "https://juice-shop.herokuapp.com/#/login")
              Scenario.fresh "https" "juice-shop.herokuapp.com" "/#/login")
    as (_ & w' & more & Hrun & Hcalls & _).
  - right. reflexivity.
  - apply includes_elem_of. reflexivity.
  - right. eexists _, _. split; [reflexivity|]. left. reflexivity.
  - reflexivity.
  - exists w', more. split; assumption.
Defined.

Lemma relay_copies_last_of_each_name_witness :
  exists w',
    Scenario.run (Scenario.serving Scenario.two_cookies)
                 (Scenario.request "https://badssl.com/") = (Js.Normal tt, w')
    /\ statusCode (res w') = 200
    /\ getHeader (res w') "set-cookie" = Some "b=2".
Proof.
  destruct (relay_copies_last_of_each_name Url.hostname Scenario.URL_new
              (Scenario.serving Scenario.two_cookies)
              (Scenario.request "https://badssl.com/") Scenario.fresh
              "https://badssl.com/"
              (Url.mkURL (Str.chars "https") [] []
                         (Some (Url.Domain (Str.chars "badssl.com"))) None
                         (Str.chars "/"))
              Scenario.two_cookies Scenario.body_bytes)
    as (w' & Hrun & Hstatus & _ & Hall).
  - reflexivity.
  - discriminate.
  - reflexivity.
  - apply includes_elem_of. reflexivity.
  - reflexivity.
  - reflexivity.
  - reflexivity.
  - exists w'. split; [exact Hrun|]. split; [exact Hstatus|].
    apply (Hall [("content-type", "text/html"); ("set-cookie", "a=1")]
                "set-cookie" "b=2" []);
      [reflexivity | reflexivity | reflexivity |].
    intros key' value' Hin. inversion Hin.
Defined.

(** ** Addresses that are never let through *)

Lemma digit_char_is_digit (d : N) :
  (d < 10)%N -> Url.is_digit (Url.digit_char false d) = true.
Proof.
  intros Hd.
  assert (d = 0 \/ d = 1 \/ d = 2 \/ d = 3 \/ d = 4 \/ d = 5 \/ d = 6
          \/ d = 7 \/ d = 8 \/ d = 9)%N as Hcases by lia.
  repeat (destruct Hcases as [-> | Hcases]; [reflexivity|]).
  subst. reflexivity.
Qed.

Lemma digits_of_S (fuel : nat) (radix : N) (upper : bool) (n : N)
      (acc : list ascii) :
  Url.digits_of (S fuel) radix upper n acc
  = if (n / radix =? 0)%N then Url.digit_char upper (n mod radix)%N :: acc
    else Url.digits_of fuel radix upper (n / radix)%N
                       (Url.digit_char upper (n mod radix)%N :: acc).
Proof. reflexivity. Qed.

Lemma digits_of_head (fuel : nat) (m : N) (c0 : ascii) (rest0 : list ascii) :
  Url.is_digit c0 = true ->
  exists c rest, Url.digits_of fuel 10 false m (c0 :: rest0) = c :: rest
                 /\ Url.is_digit c = true.
Proof.
  revert m c0 rest0. induction fuel as [|fuel IH]; intros m c0 rest0 Hc0.
  - by exists c0, rest0.
  - rewrite digits_of_S. destruct (m / 10 =? 0)%N.
    + eexists _, _. split; [reflexivity|].
      apply digit_char_is_digit. apply N.mod_lt. discriminate.
    + apply IH. apply digit_char_is_digit. apply N.mod_lt. discriminate.
Qed.

(** A decimal numeral starts with a digit. *)
Lemma decimal_head (n : N) :
  exists c rest, Url.decimal n = c :: rest /\ Url.is_digit c = true.
Proof.
  unfold Url.decimal. change 40%nat with (S 39). rewrite digits_of_S.
  destruct (n / 10 =? 0)%N.
  - eexists _, _. split; [reflexivity|].
    apply digit_char_is_digit. apply N.mod_lt. discriminate.
  - apply digits_of_head. apply digit_char_is_digit. apply N.mod_lt.
    discriminate.
Qed.

(** No name on the list starts with a digit or a bracket. *)
Lemma ALLOWLIST_starts_with_letter (c : ascii) (rest : list ascii) :
  Url.is_digit c = true \/ c = "["%char ->
  Str.of_chars (c :: rest) ∉ ALLOWLIST.
Proof.
  intros Hc Hin. apply ALLOWLIST_entries in Hin.
  change (Str.of_chars (c :: rest)) with (String c (Str.of_chars rest)) in Hin.
  destruct Hin as [Hin | [Hin | [Hin | Hin]]]; injection Hin as -> _;
    destruct Hc as [Hc | Hc]; discriminate Hc.
Qed.

(** X11. An address whose host is an IP address, in any of the forms the
    parser reads as one (dotted, decimal, hexadecimal, or IPv6 in brackets),
    is never fetched: the answer is 403. *)
Theorem ip_address_is_403 (idna : list ascii -> option (list ascii))
        (fetch : string -> RedirectMode -> Js.Completion Upstream)
        (req : Request) (w : World) (s : string) (u : Url.URL) :
  query_url req = Js.Str s ->
  Url.URL_new idna s = Js.Normal u ->
  (exists a, Url.host u = Some (Url.IPv4 a))
  \/ (exists pieces, Url.host u = Some (Url.IPv6 pieces)) ->
  proxy Url.hostname (Url.URL_new idna) fetch req w
  = (Js.Normal tt,
     mkWorld (mkResponse 403 (headers (res w)) (Some (Text "Domain not allowed")))
             (calls w ++ [NewURL s])).
Proof.
  intros Hq Hu Hip. apply try_returns.
  eapply try_forbidden; try eassumption; [by eapply URL_new_nonempty|].
  unfold Url.hostname.
  destruct Hip as [(a & ->) | (pieces & ->)]; cbn [Url.host_serialize].
  - unfold Url.ipv4_serialize.
    destruct (decimal_head (a / 256 ^ 3 mod 256)%N) as (c & rest & -> & Hc).
    rewrite <- app_comm_cons. apply ALLOWLIST_starts_with_letter. by left.
  - apply ALLOWLIST_starts_with_letter. by right.
Qed.

(** [GET /proxy?url=http://2130706433/], which is 127.0.0.1. *)
Lemma ip_address_is_403_witness :
  (exists u, Scenario.URL_new "http://2130706433/" = Js.Normal u
             /\ Url.hostname u = "127.0.0.1")
  /\ Scenario.run Scenario.offline (Scenario.request "http://2130706433/")
     = (Js.Normal tt,
        mkWorld (mkResponse 403 ∅ (Some (Text "Domain not allowed")))
                [NewURL "http://2130706433/"]).
Proof.
  split.
  { eexists. split; [vm_compute; reflexivity|]. vm_compute. reflexivity. }
  eapply (ip_address_is_403 Scenario.no_unicode Scenario.offline
            (Scenario.request "http://2130706433/") Scenario.fresh
            "http://2130706433/" (Url.mkURL (Str.chars "http") [] []
                                    (Some (Url.IPv4 2130706433)) None
                                    (Str.chars "/"))).
  - reflexivity.
  - vm_compute. reflexivity.
  - left. eexists. reflexivity.
Defined.

(** ** Letter case outside the special schemes *)

Lemma name_char_opaque (c : ascii) :
  Url.is_name_char c = true ->
  Url.forbidden_host_code_point c = false /\ Url.in_c0_control_set c = false.
Proof. each_ascii c; intros H; try discriminate H; split; reflexivity. Qed.

(** The opaque-host parser leaves a host written with name characters as it
    is. *)
Lemma opaque_host_parse_name_chars (l : list ascii) :
  forallb Url.is_name_char l = true ->
  Url.opaque_host_parse l = Some (Url.Opaque l).
Proof.
  intros Hname. unfold Url.opaque_host_parse.
  assert (existsb Url.forbidden_host_code_point l = false) as ->.
  { induction l as [|c l IH]; [reflexivity|].
    apply andb_true_iff in Hname as [Hc Hl].
    apply name_char_opaque in Hc as (Hc & _).
    cbn [existsb]. by rewrite Hc, IH. }
  f_equal. f_equal. unfold Url.percent_encode.
  induction l as [|c l IH]; [reflexivity|].
  apply andb_true_iff in Hname as [Hc Hl].
  apply name_char_opaque in Hc as (_ & Hc).
  cbn [flat_map]. rewrite Hc, IH by assumption. reflexivity.
Qed.

Lemma authority_at_host (sch l : list ascii) (sc : Url.Scan) :
  Url.authority sch l = Some sc ->
  exists user pass buffer colon rest,
    sc = Url.AtHost sch user pass buffer colon rest.
Proof.
  unfold Url.authority.
  destruct (Url.authority_state _ _ _ _ _ _ _) as [[[user pass] l']|];
    [|discriminate].
  destruct (Url.host_state _ _ _ _) as [[buffer colon] rest].
  intros [= <-]. eauto 6.
Qed.

Lemma ignore_slashes_at_host (sch l : list ascii) (sc : Url.Scan) :
  Url.special_authority_ignore_slashes_state sch l = Some sc ->
  exists user pass buffer colon rest,
    sc = Url.AtHost sch user pass buffer colon rest.
Proof.
  induction l as [|c l IH]; simpl.
  - apply authority_at_host.
  - destruct (_ || _); [apply IH | apply authority_at_host].
Qed.

(** Only a [file] URL comes to the file host state. *)
Lemma file_host_is_special (input sch buffer l : list ascii) :
  Url.scan_to_host input = Some (Url.AtFileHost sch buffer l) ->
  Url.is_special sch = true.
Proof.
  unfold Url.scan_to_host.
  destruct (Url.scheme_start_state _) as [[sch0 l0]|]; [|discriminate].
  destruct (Url.eq_chars sch0 (Str.chars "file")) eqn:Hfile.
  - intros H.
    assert (sch = sch0) as ->.
    { unfold Url.file_state, Url.file_slash_state in H.
      destruct l0 as [|c l0]; [discriminate|].
      destruct (Url.is_slash c); [|discriminate].
      destruct l0 as [|d l0]; [discriminate|].
      destruct (Url.is_slash d); [|discriminate].
      destruct (Url.file_host_state [] l0). by injection H as <-. }
    unfold Url.is_special, Url.special_schemes. cbn [existsb fst].
    rewrite Hfile. by rewrite orb_true_r.
  - destruct (Url.is_special sch0).
    + intros H. exfalso.
      assert (exists user pass buf colon rest,
                 Url.AtFileHost sch buffer l
                 = Url.AtHost sch0 user pass buf colon rest)
        as (? & ? & ? & ? & ? & ?); [|discriminate].
      unfold Url.special_authority_slashes_state in H.
      destruct l0 as [|c [|d l0]]; try by eapply ignore_slashes_at_host.
      destruct (_ && _); by eapply ignore_slashes_at_host.
    + intros H. exfalso.
      destruct l0 as [|c l0]; [discriminate|].
      destruct (Url.is_char c "/"); [|discriminate].
      unfold Url.path_or_authority_state in H.
      destruct l0 as [|d l0]; [discriminate|].
      destruct (Url.is_char d "/"); [|discriminate].
      apply authority_at_host in H as (? & ? & ? & ? & ? & ?). discriminate.
Qed.

Lemma host_state_end_keeps (idna : list ascii -> option (list ascii))
      (sch user pass buffer : list ascii) (colon : bool) (l : list ascii)
      (u : Url.URL) :
  Url.host_state_end idna sch user pass buffer colon l = Some u ->
  Url.scheme u = sch
  /\ exists h, Url.host_parse idna buffer (negb (Url.is_special sch)) = Some h
               /\ Url.host u = Some h.
Proof.
  unfold Url.host_state_end. intros H.
  destruct colon.
  - destruct (Url.is_empty buffer); [discriminate|].
    destruct (Url.host_parse _ _ _) as [h|]; [|discriminate].
    apply port_state_keeps in H as (? & ?). eauto.
  - destruct (_ && _); [discriminate|].
    destruct (Url.host_parse _ _ _) as [h|]; [|discriminate].
    injection H as <-. eauto.
Qed.

Lemma file_host_state_end_scheme (idna : list ascii -> option (list ascii))
      (sch buffer l : list ascii) (u : Url.URL) :
  Url.file_host_state_end idna sch buffer l = Some u -> Url.scheme u = sch.
Proof.
  unfold Url.file_host_state_end.
  destruct (Url.is_windows_drive_letter _); [by intros [= <-]|].
  destruct (Url.is_empty _); [by intros [= <-]|].
  destruct (Url.host_parse _ _ _); [|discriminate]. by intros [= <-].
Qed.

(** In a URL whose scheme is not special, a host that is an allow-list name
    but for the case of its letters stays as it is written. *)
Lemma parse_other_scheme_keeps_host (idna : list ascii -> option (list ascii))
      (input : list ascii) (u : Url.URL) (e : string) :
  Url.basic_parse idna input = Some u ->
  Url.is_special (Url.scheme u) = false ->
  e ∈ ALLOWLIST ->
  Url.lower_all (Url.scanned_host (Url.scan_to_host input)) = Str.chars e ->
  Url.hostname u = Str.of_chars (Url.scanned_host (Url.scan_to_host input)).
Proof.
  intros Hparse Hother He Hlow.
  assert (3 <= length (Url.scanned_host (Url.scan_to_host input)))%nat as Hlen.
  { rewrite <- lower_all_length, Hlow.
    apply ALLOWLIST_entries in He as [-> | [-> | [-> | ->]]]; simpl; lia. }
  assert (forallb Url.is_name_char
                  (Url.scanned_host (Url.scan_to_host input)) = true) as Hname.
  { rewrite <- name_chars_lower, Hlow.
    apply ALLOWLIST_entries in He as [-> | [-> | [-> | ->]]]; reflexivity. }
  unfold Url.basic_parse in Hparse.
  destruct (Url.scan_to_host input)
    as [[u0|sch user pass buffer colon l|sch buffer l]|] eqn:Hscan;
    simpl in Hlen, Hname |- *; try (simpl in Hlen; lia); try discriminate Hparse.
  - apply host_state_end_keeps in Hparse as (Hsch & h & Hh & Hu).
    rewrite Hsch in Hother. rewrite Hother in Hh. cbn [negb] in Hh.
    unfold Url.host_parse in Hh.
    assert (Url.starts_with ["["%char] buffer = false) as Hbracket.
    { destruct buffer as [|c b]; [reflexivity|].
      apply andb_true_iff in Hname as [Hc _].
      apply name_char_plain in Hc as (_ & Hc & _).
      cbn [Url.starts_with]. by rewrite Hc. }
    rewrite Hbracket, (opaque_host_parse_name_chars _ Hname) in Hh.
    injection Hh as <-. unfold Url.hostname. by rewrite Hu.
  - apply file_host_state_end_scheme in Hparse.
    apply file_host_is_special in Hscan. congruence.
Qed.

(** X13. Outside the special schemes the host check is case-sensitive in
    effect: when the [URL] constructor accepts a [url] whose scheme is not
    special and whose host differs from an allow-list entry in the case of
    its letters and in nothing else, the hostname is the host as the caller
    wrote it, it is not on the list, and the handler answers 403 "Domain not
    allowed" after the one [URL] call, without calling fetch. *)
Theorem other_scheme_host_case_is_403
        (idna : list ascii -> option (list ascii))
        (fetch : string -> RedirectMode -> Js.Completion Upstream)
        (req : Request) (w : World) (s : string) (u : Url.URL) (e : string) :
  query_url req = Js.Str s ->
  Url.URL_new idna s = Js.Normal u ->
  Url.is_special (Url.scheme u) = false ->
  e ∈ ALLOWLIST ->
  Str.toLowerCase (Url.host_text s) = Str.toLowerCase e ->
  Url.host_text s <> e ->
  Url.hostname u = Url.host_text s
  /\ Str.includes ALLOWLIST (Url.hostname u) = false
  /\ exists w',
       proxy Url.hostname (Url.URL_new idna) fetch req w = (Js.Normal tt, w')
       /\ statusCode (res w') = 403
       /\ sent (res w') = Some (Text "Domain not allowed")
       /\ calls w' = calls w ++ [NewURL s].
Proof.
  intros Hq Hu Hother He Hcase Hne.
  assert (Url.hostname u = Url.host_text s) as Hhost.
  { unfold Url.URL_new in Hu.
    destruct (Url.basic_parse idna (Str.chars s)) as [u'|] eqn:Hparse;
      [|discriminate]. injection Hu as ->.
    eapply parse_other_scheme_keeps_host; try eassumption.
    unfold Url.host_text in Hcase.
    rewrite toLowerCase_of_chars, (ALLOWLIST_lowercase e He) in Hcase.
    rewrite <- Hcase. by rewrite chars_of_chars. }
  assert (Url.hostname u ∉ ALLOWLIST) as Hout.
  { intros Hin. apply Hne. rewrite <- Hhost.
    rewrite <- (ALLOWLIST_lowercase _ Hin), Hhost, Hcase.
    by apply ALLOWLIST_lowercase. }
  split; [assumption|]. split; [by apply includes_not_elem_of|].
  eexists. split.
  - apply try_returns. eapply try_forbidden; try eassumption.
    by eapply URL_new_nonempty.
  - by simpl.
Qed.

(** [GET /proxy?url=foo://BADSSL.COM/] *)
Lemma other_scheme_host_case_is_403_witness :
  exists w',
    Scenario.run (Scenario.serving Scenario.framed_page)
                 (Scenario.request "foo://BADSSL.COM/") = (Js.Normal tt, w')
    /\ statusCode (res w') = 403
    /\ calls w' = [NewURL "foo://BADSSL.COM/"].
Proof.
  destruct (other_scheme_host_case_is_403 Scenario.no_unicode
              (Scenario.serving Scenario.framed_page)
              (Scenario.request "foo://BADSSL.COM/") Scenario.fresh
              "foo://BADSSL.COM/"
              (Url.mkURL (Str.chars "foo") [] []
                         (Some (Url.Opaque (Str.chars "BADSSL.COM"))) None
                         (Str.chars "/"))
              "badssl.com")
    as (_ & _ & w' & Hrun & Hstatus & _ & Hcalls).
  - reflexivity.
  - reflexivity.
  - reflexivity.
  - apply includes_elem_of. reflexivity.
  - reflexivity.
  - discriminate.
  - exists w'. split; [exact Hrun|]. split; [exact Hstatus|]. exact Hcalls.
Defined.
